(** * StreamPay: a shallow embedding of [contracts/StreamPay.sol]

    The contract keeps a table of payment streams, a table of delegation
    grants and an id counter.  Every external function is a transaction: it
    either returns and commits its writes, or reverts and leaves the storage
    as it was.  The embedding below is a state-and-error monad over the
    contract's storage; a reverted call is an [Err] and carries no state.

    Solidity 0.8 arithmetic on [uint256] is checked: an overflow or an
    underflow aborts the call with [Panic 0x11].  Numbers are modelled as
    [N] and every [+], [-], [*] of the source goes through [checked_add],
    [checked_sub], [checked_mul].

    The ERC-20 token is outside the contract.  It is modelled as an
    interface ([AssetPort]) whose two calls may fail; every call that
    returned is recorded in a trace, tagged with the stream it was made for.
    The port does not call back into the contract, so the [nonReentrant]
    flag is constant between transactions and is not represented; neither
    are the inherited [Ownable] owner and the ERC-165 query, which no
    stream operation reads. *)

From Stdlib Require Import NArith Lia Bool String List.
From stdpp Require Import base option gmap strings list.

Local Open Scope N_scope.

(** ** Machine types *)

Abbreviation uint256 := N (only parsing).
Abbreviation address := N (only parsing).
Abbreviation bytes4 := N (only parsing).

Definition MAX_UINT256 : N := 2 ^ 256 - 1.

(** ** Results of a call *)

Inductive Failure : Type :=
| Revert (reason : string)   (* a failed [require] *)
| Panic (code : N)           (* compiler-inserted check; 0x11 is arithmetic *)
| TransferFailed.            (* the token call made through SafeERC20 failed *)

Inductive Result (A : Type) : Type :=
| Ok (a : A)
| Err (e : Failure).
Arguments Ok {A} a.
Arguments Err {A} e.

Definition ARITHMETIC : N := 17.

(** The error kinds of the specification, as the source's revert reasons. *)
Definition Unauthorized : Failure :=
  Revert "StreamPay: not authorized to create stream on behalf".
Definition NothingToWithdraw : Failure :=
  Revert "StreamPay: no tokens available for withdrawal".
Definition AmountExceedsWithdrawable : Failure :=
  Revert "StreamPay: amount exceeds withdrawable balance".

(** ** Storage layout *)

Record Stream : Type := mkStream {
  sender : address;
  recipient : address;
  tokenAddress : address;
  startTime : uint256;
  stopTime : uint256;
  deposit : uint256;
  ratePerSecond : uint256;
  remaining : uint256;
  isActive : bool
}.

(** A storage slot that was never written reads as zero. *)
Definition zeroStream : Stream := mkStream 0 0 0 0 0 0 0 0 false.

Definition set_startTime (v : uint256) (s : Stream) : Stream :=
  mkStream (sender s) (recipient s) (tokenAddress s) v (stopTime s)
           (deposit s) (ratePerSecond s) (remaining s) (isActive s).
Definition set_stopTime (v : uint256) (s : Stream) : Stream :=
  mkStream (sender s) (recipient s) (tokenAddress s) (startTime s) v
           (deposit s) (ratePerSecond s) (remaining s) (isActive s).
Definition set_remaining (v : uint256) (s : Stream) : Stream :=
  mkStream (sender s) (recipient s) (tokenAddress s) (startTime s) (stopTime s)
           (deposit s) (ratePerSecond s) v (isActive s).
Definition set_isActive (v : bool) (s : Stream) : Stream :=
  mkStream (sender s) (recipient s) (tokenAddress s) (startTime s) (stopTime s)
           (deposit s) (ratePerSecond s) (remaining s) v.

(** Calls made to the token, in the order they returned. *)
Inductive PortCall : Type :=
| Pull (streamId : uint256) (token from : address) (amount : uint256)
| Push (streamId : uint256) (token to : address) (amount : uint256).

Inductive Event : Type :=
| DelegateAuthorized (delegator delegate : address) (functionSelector : bytes4)
| DelegateRevoked (delegator delegate : address) (functionSelector : bytes4)
| StreamCreated (streamId : uint256) (sender_ recipient_ tokenAddress_ : address)
    (startTime_ stopTime_ deposit_ ratePerSecond_ : uint256)
| StreamWithdrawn (streamId : uint256) (recipient_ : address) (amount : uint256)
| StreamCancelled (streamId : uint256) (sender_ recipient_ : address)
    (senderRefund recipientAmount : uint256)
| StreamPaused (streamId : uint256) (pauser : address)
| StreamResumed (streamId : uint256) (resumer : address).

(** The asset transfer port: [safeTransferFrom] and [safeTransfer] of the
    source, seen from the contract.  [None] is a failed call. *)
Class AssetPort (P : Type) : Type := {
  port_pull : P -> address -> address -> address -> uint256 -> option P;
  port_push : P -> address -> address -> address -> uint256 -> option P
}.

Record World (P : Type) : Type := mkWorld {
  streams : gmap N Stream;
  _delegateAuthorizations : gmap (N * N * N) bool;
  _nextStreamId : uint256;
  port : P;
  trace : list PortCall;
  events : list Event
}.
Arguments mkWorld {P} _ _ _ _ _ _.
Arguments streams {P} _.
Arguments _delegateAuthorizations {P} _.
Arguments _nextStreamId {P} _.
Arguments port {P} _.
Arguments trace {P} _.
Arguments events {P} _.

(** What a call sees of its transaction. *)
Record Env : Type := mkEnv {
  msg_sender : address;
  block_timestamp : uint256;
  this : address
}.

(** ** The monad of contract code *)

Definition M (P A : Type) : Type := Env -> World P -> Result (A * World P).

Definition ret {P A} (a : A) : M P A := fun _ w => Ok (a, w).

Definition bind {P A B} (m : M P A) (k : A -> M P B) : M P B :=
  fun env w =>
    match m env w with
    | Ok (a, w') => k a env w'
    | Err e => Err e
    end.

Notation "'let*' x ':=' m 'in' k" := (bind m (fun x => k))
  (at level 10, x name, m at level 100, k at level 200).
Notation "m ';;' k" := (bind m (fun _ => k))
  (at level 100, k at level 200, right associativity, only parsing).

Definition fail {P A} (e : Failure) : M P A := fun _ _ => Err e.

Definition require {P} (b : bool) (reason : string) : M P unit :=
  if b then ret tt else fail (Revert reason).

Definition checked_add {P} (a b : uint256) : M P uint256 :=
  if a + b <=? MAX_UINT256 then ret (a + b) else fail (Panic ARITHMETIC).
Definition checked_sub {P} (a b : uint256) : M P uint256 :=
  if b <=? a then ret (a - b) else fail (Panic ARITHMETIC).
Definition checked_mul {P} (a b : uint256) : M P uint256 :=
  if a * b <=? MAX_UINT256 then ret (a * b) else fail (Panic ARITHMETIC).

Definition sender_of {P} : M P address := fun env w => Ok (msg_sender env, w).
Definition timestamp {P} : M P uint256 := fun env w => Ok (block_timestamp env, w).
Definition self {P} : M P address := fun env w => Ok (this env, w).

(** [streams[streamId]], read and written field by field through a storage
    pointer in the source: every read sees the writes made before it. *)
Definition stream_at {P} (streamId : uint256) (w : World P) : Stream :=
  default zeroStream (streams w !! streamId).

Definition sload {P} (streamId : uint256) : M P Stream :=
  fun _ w => Ok (stream_at streamId w, w).

Definition sstore {P} (streamId : uint256) (f : Stream -> Stream) : M P unit :=
  fun _ w =>
    let s := stream_at streamId w in
    Ok (tt, mkWorld (<[streamId := f s]> (streams w)) (_delegateAuthorizations w)
              (_nextStreamId w) (port w) (trace w) (events w)).

Definition emit {P} (e : Event) : M P unit :=
  fun _ w => Ok (tt, mkWorld (streams w) (_delegateAuthorizations w)
                      (_nextStreamId w) (port w) (trace w) (e :: events w)).

Section Contract.
Context {P : Type} `{AssetPort P}.

(** [IERC20(token).safeTransferFrom(from, address(this), amount)] *)
Definition safeTransferFrom (streamId : uint256) (token from : address)
    (amount : uint256) : M P unit :=
  fun env w =>
    match port_pull (port w) token from (this env) amount with
    | Some p' => Ok (tt, mkWorld (streams w) (_delegateAuthorizations w)
                       (_nextStreamId w) p' (Pull streamId token from amount :: trace w)
                       (events w))
    | None => Err TransferFailed
    end.

(** [IERC20(token).safeTransfer(to, amount)] *)
Definition safeTransfer (streamId : uint256) (token to : address)
    (amount : uint256) : M P unit :=
  fun env w =>
    match port_push (port w) token (this env) to amount with
    | Some p' => Ok (tt, mkWorld (streams w) (_delegateAuthorizations w)
                       (_nextStreamId w) p' (Push streamId token to amount :: trace w)
                       (events w))
    | None => Err TransferFailed
    end.

(** *** Delegation registry *)

(** The [.selector] members: the first four bytes of the Keccak-256 hash
    of each function's signature. *)
Definition createStreamOnBehalf_selector : bytes4 := 962028471.       (* 0x395763b7 *)
Definition withdrawFromStreamOnBehalf_selector : bytes4 := 3513967947. (* 0xd172e54b *)
Definition cancelStreamOnBehalf_selector : bytes4 := 2368542817.      (* 0x8d2d1861 *)

Definition isAuthorizedDelegate (delegator delegate : address)
    (functionSelector : bytes4) : M P bool :=
  fun _ w =>
    Ok (default false
          (_delegateAuthorizations w !! (delegator, delegate, functionSelector)), w).

Definition set_authorization (delegator delegate : address)
    (functionSelector : bytes4) (v : bool) : M P unit :=
  fun _ w =>
    Ok (tt, mkWorld (streams w)
              (<[(delegator, delegate, functionSelector) := v]> (_delegateAuthorizations w))
              (_nextStreamId w) (port w) (trace w) (events w)).

Definition authorizeDelegate (delegate : address) (functionSelector : bytes4) : M P unit :=
  require (negb (delegate =? 0)) "StreamPay: delegate is the zero address";;
  let* caller := sender_of in
  set_authorization caller delegate functionSelector true;;
  emit (DelegateAuthorized caller delegate functionSelector).

Definition revokeDelegate (delegate : address) (functionSelector : bytes4) : M P unit :=
  let* caller := sender_of in
  set_authorization caller delegate functionSelector false;;
  emit (DelegateRevoked caller delegate functionSelector).

(** *** Creation *)

Definition next_id : M P uint256 := fun _ w => Ok (_nextStreamId w, w).

Definition set_next_id (v : uint256) : M P unit :=
  fun _ w => Ok (tt, mkWorld (streams w) (_delegateAuthorizations w) v
                      (port w) (trace w) (events w)).

Definition _createStream (sender_ recipient_ : address) (deposit_ : uint256)
    (tokenAddress_ : address) (startTime_ stopTime_ : uint256) : M P uint256 :=
  let* me := self in
  let* now := timestamp in
  require (negb (recipient_ =? 0)) "StreamPay: recipient is the zero address";;
  require (negb (recipient_ =? me)) "StreamPay: recipient cannot be the contract";;
  require (negb (recipient_ =? sender_)) "StreamPay: recipient cannot be the sender";;
  require (0 <? deposit_) "StreamPay: deposit is zero";;
  require (now <=? startTime_) "StreamPay: start time before current time";;
  require (startTime_ <? stopTime_) "StreamPay: stop time before start time";;
  let* duration := checked_sub stopTime_ startTime_ in
  require (duration <=? deposit_)
    "StreamPay: deposit smaller than duration (min 1 token/sec)";;
  let ratePerSecond_ := deposit_ / duration in
  (* the id is read here only to tag the trace entry of the pull *)
  let* tag := next_id in
  safeTransferFrom tag tokenAddress_ sender_ deposit_;;
  let* streamId := next_id in
  let* incremented := checked_add streamId 1 in
  set_next_id incremented;;
  sstore streamId (fun _ =>
    mkStream sender_ recipient_ tokenAddress_ startTime_ stopTime_
             deposit_ ratePerSecond_ deposit_ true);;
  emit (StreamCreated streamId sender_ recipient_ tokenAddress_
          startTime_ stopTime_ deposit_ ratePerSecond_);;
  ret streamId.

Definition createStream (recipient_ : address) (deposit_ : uint256)
    (tokenAddress_ : address) (startTime_ stopTime_ : uint256) : M P uint256 :=
  let* caller := sender_of in
  _createStream caller recipient_ deposit_ tokenAddress_ startTime_ stopTime_.

Definition createStreamOnBehalf (sender_ recipient_ : address) (deposit_ : uint256)
    (tokenAddress_ : address) (startTime_ stopTime_ : uint256) : M P uint256 :=
  let functionSelector := createStreamOnBehalf_selector in
  let* caller := sender_of in
  let* authorized := isAuthorizedDelegate sender_ caller functionSelector in
  require authorized "StreamPay: not authorized to create stream on behalf";;
  _createStream sender_ recipient_ deposit_ tokenAddress_ startTime_ stopTime_.


(** *** Accrual *)

Definition withdrawableAmount (streamId : uint256) : M P uint256 :=
  let* stream := sload streamId in
  let* now := timestamp in
  if negb (isActive stream) || (now <? startTime stream) then ret 0
  else
    let* elapsedTime :=
      (if stopTime stream <=? now
       then checked_sub (stopTime stream) (startTime stream)
       else checked_sub now (startTime stream)) in
    let* earned := checked_mul elapsedTime (ratePerSecond stream) in
    let withdrawable := if deposit stream <? earned then deposit stream else earned in
    let* disbursed := checked_sub (deposit stream) (remaining stream) in
    checked_sub withdrawable disbursed.

(** *** Withdrawal *)

Definition _withdrawFromStream (streamId : uint256) (recipient_ : address)
    (amount : uint256) : M P unit :=
  let* stream := sload streamId in
  require (isActive stream) "StreamPay: stream is not active";;
  require (recipient stream =? recipient_) "StreamPay: caller is not the recipient";;
  let* withdrawable := withdrawableAmount streamId in
  require (0 <? withdrawable) "StreamPay: no tokens available for withdrawal";;
  let withdrawAmount := if amount =? 0 then withdrawable else amount in
  require (withdrawAmount <=? withdrawable)
    "StreamPay: amount exceeds withdrawable balance";;
  let* stream := sload streamId in
  let* left := checked_sub (remaining stream) withdrawAmount in
  sstore streamId (set_remaining left);;
  let* now := timestamp in
  let* stream := sload streamId in
  (if (stopTime stream <=? now) || (remaining stream =? 0)
   then sstore streamId (set_isActive false)
   else ret tt);;
  let* stream := sload streamId in
  safeTransfer streamId (tokenAddress stream) recipient_ withdrawAmount;;
  emit (StreamWithdrawn streamId recipient_ withdrawAmount).

Definition withdrawFromStream (streamId amount : uint256) : M P unit :=
  let* caller := sender_of in
  _withdrawFromStream streamId caller amount.

Definition withdrawFromStreamOnBehalf (streamId : uint256) (recipient_ : address)
    (amount : uint256) : M P unit :=
  let* stream := sload streamId in
  require (recipient stream =? recipient_) "StreamPay: recipient mismatch";;
  let functionSelector := withdrawFromStreamOnBehalf_selector in
  let* caller := sender_of in
  let* authorized := isAuthorizedDelegate recipient_ caller functionSelector in
  require authorized "StreamPay: not authorized to withdraw on behalf";;
  _withdrawFromStream streamId recipient_ amount.

(** *** Cancellation *)

Definition _cancelStream (streamId : uint256) (caller : address) : M P unit :=
  let* stream := sload streamId in
  require (isActive stream) "StreamPay: stream is not active";;
  require ((sender stream =? caller) || (recipient stream =? caller))
    "StreamPay: caller is not the sender or recipient";;
  sstore streamId (set_isActive false);;
  let* now := timestamp in
  let* stream := sload streamId in
  let* recipientAmount :=
    (if startTime stream <? now then withdrawableAmount streamId else ret 0) in
  let* stream := sload streamId in
  let* senderRefund := checked_sub (remaining stream) recipientAmount in
  sstore streamId (set_remaining 0);;
  let* stream := sload streamId in
  (if 0 <? recipientAmount
   then safeTransfer streamId (tokenAddress stream) (recipient stream) recipientAmount
   else ret tt);;
  (if 0 <? senderRefund
   then safeTransfer streamId (tokenAddress stream) (sender stream) senderRefund
   else ret tt);;
  emit (StreamCancelled streamId (sender stream) (recipient stream)
          senderRefund recipientAmount).

Definition cancelStream (streamId : uint256) : M P unit :=
  let* caller := sender_of in
  _cancelStream streamId caller.

Definition cancelStreamOnBehalf (streamId : uint256) (sender_ : address) : M P unit :=
  let* stream := sload streamId in
  require (sender stream =? sender_) "StreamPay: sender mismatch";;
  let functionSelector := cancelStreamOnBehalf_selector in
  let* caller := sender_of in
  let* authorized := isAuthorizedDelegate sender_ caller functionSelector in
  require authorized "StreamPay: not authorized to cancel on behalf";;
  _cancelStream streamId sender_.

(** *** Pause and resume *)

Definition pauseStream (streamId : uint256) : M P unit :=
  let* caller := sender_of in
  let* stream := sload streamId in
  require (isActive stream) "StreamPay: stream is not active";;
  require ((sender stream =? caller) || (recipient stream =? caller))
    "StreamPay: caller is not the sender or recipient";;
  let* withdrawable := withdrawableAmount streamId in
  let* stream := sload streamId in
  let* left := checked_sub (remaining stream) withdrawable in
  sstore streamId (set_remaining left);;
  let* now := timestamp in
  let* stream := sload streamId in
  let* timeRemaining :=
    (if now <? stopTime stream then checked_sub (stopTime stream) now else ret 0) in
  sstore streamId (set_stopTime timeRemaining);;
  sstore streamId (set_isActive false);;
  let* stream := sload streamId in
  (if 0 <? withdrawable
   then safeTransfer streamId (tokenAddress stream) (recipient stream) withdrawable
   else ret tt);;
  emit (StreamPaused streamId caller).

Definition resumeStream (streamId : uint256) : M P unit :=
  let* caller := sender_of in
  let* stream := sload streamId in
  require (negb (isActive stream)) "StreamPay: stream is already active";;
  require (sender stream =? caller) "StreamPay: only sender can resume the stream";;
  require (0 <? remaining stream) "StreamPay: no funds left in the stream";;
  let timeRemaining := stopTime stream in
  let* now := timestamp in
  sstore streamId (set_startTime now);;
  let* stopped := checked_add now timeRemaining in
  sstore streamId (set_stopTime stopped);;
  sstore streamId (set_isActive true);;
  emit (StreamResumed streamId caller).

(** *** Read-only queries *)

Definition getStreamBasicInfo (streamId : uint256)
    : M P (address * address * address * uint256 * uint256 * bool) :=
  let* stream := sload streamId in
  ret (sender stream, recipient stream, tokenAddress stream,
       deposit stream, remaining stream, isActive stream).

Definition getStreamTimeInfo (streamId : uint256)
    : M P (uint256 * uint256 * uint256 * uint256) :=
  let* stream := sload streamId in
  let* withdrawable := withdrawableAmount streamId in
  ret (startTime stream, stopTime stream, ratePerSecond stream, withdrawable).

(** *** Transactions *)

Inductive Call : Type :=
| CreateStream (recipient_ : address) (deposit_ : uint256) (tokenAddress_ : address)
    (startTime_ stopTime_ : uint256)
| CreateStreamOnBehalf (sender_ recipient_ : address) (deposit_ : uint256)
    (tokenAddress_ : address) (startTime_ stopTime_ : uint256)
| WithdrawFromStream (streamId amount : uint256)
| WithdrawFromStreamOnBehalf (streamId : uint256) (recipient_ : address) (amount : uint256)
| CancelStream (streamId : uint256)
| CancelStreamOnBehalf (streamId : uint256) (sender_ : address)
| PauseStream (streamId : uint256)
| ResumeStream (streamId : uint256)
| AuthorizeDelegate (delegate : address) (functionSelector : bytes4)
| RevokeDelegate (delegate : address) (functionSelector : bytes4).

Definition dispatch (c : Call) : M P unit :=
  match c with
  | CreateStream r d t a b => createStream r d t a b;; ret tt
  | CreateStreamOnBehalf s r d t a b => createStreamOnBehalf s r d t a b;; ret tt
  | WithdrawFromStream i a => withdrawFromStream i a
  | WithdrawFromStreamOnBehalf i r a => withdrawFromStreamOnBehalf i r a
  | CancelStream i => cancelStream i
  | CancelStreamOnBehalf i s => cancelStreamOnBehalf i s
  | PauseStream i => pauseStream i
  | ResumeStream i => resumeStream i
  | AuthorizeDelegate d f => authorizeDelegate d f
  | RevokeDelegate d f => revokeDelegate d f
  end.

(** *** Vocabulary of the statements below *)

Definition is_withdrawal (c : Call) : bool :=
  match c with
  | WithdrawFromStream _ _ | WithdrawFromStreamOnBehalf _ _ _ => true
  | _ => false
  end.

(** The stream a call is made on, if it names one. *)
Definition call_stream (c : Call) : option uint256 :=
  match c with
  | WithdrawFromStream i _ | WithdrawFromStreamOnBehalf i _ _
  | CancelStream i | CancelStreamOnBehalf i _ | PauseStream i | ResumeStream i => Some i
  | _ => None
  end.

(** The trace entry of an optional push: the source skips the call when
    the amount is zero. *)
Definition pushed_if (streamId : uint256) (token to : address) (amount : uint256)
    : list PortCall :=
  if 0 <? amount then [Push streamId token to amount] else [].

(** The port after an optional push: the source skips the call when the
    amount is zero. *)
Definition push_if (p : P) (token me to : address) (amount : uint256) : option P :=
  if 0 <? amount then port_push p token me to amount else Some p.

(** The conditions the specification puts on a creation request. *)
Definition creation_request_ok (sender_ recipient_ : address) (deposit_ : uint256)
    (tokenAddress_ : address) (startTime_ stopTime_ : uint256)
    (env : Env) (w : World P) : Prop :=
  recipient_ <> 0 /\ recipient_ <> this env /\ recipient_ <> sender_ /\
  0 < deposit_ /\ block_timestamp env <= startTime_ /\ startTime_ < stopTime_ /\
  stopTime_ - startTime_ <= deposit_ /\
  is_Some (port_pull (port w) tokenAddress_ sender_ (this env) deposit_).

End Contract.

(** The storage right after the constructor ran ([_nextStreamId = 1]). *)
Definition deployed {P} (p : P) : World P := mkWorld ∅ ∅ 1 p [] [].

(** ** A token ledger to run the contract against

    One balance per (token, holder); a transfer fails when the balance is
    too small.  Allowances are taken as given. *)
Definition balanceOf (l : gmap (N * N) N) (token holder : address) : uint256 :=
  default 0 (l !! (token, holder)).

Definition move (l : gmap (N * N) N) (token from to : address) (amount : uint256)
    : option (gmap (N * N) N) :=
  if amount <=? balanceOf l token from
  then
    let l1 := <[(token, from) := balanceOf l token from - amount]> l in
    Some (<[(token, to) := balanceOf l1 token to + amount]> l1)
  else None.

#[export] Instance ledger_port : AssetPort (gmap (N * N) N) :=
  {| port_pull := move; port_push := move |}.

(** ** Executions *)

Definition with_port {P} (p : P) (w : World P) : World P :=
  mkWorld (streams w) (_delegateAuthorizations w) (_nextStreamId w) p
          (trace w) (events w).

(** A transaction commits on success and leaves the world as it was on
    failure. *)
Definition run {P} `{AssetPort P} (env : Env) (c : Call) (w : World P) : World P :=
  match dispatch c env w with
  | Ok (_, w') => w'
  | Err _ => w
  end.

(** The worlds a contract deployed at [me] can be in: after the
    constructor, after a call that returned, and after the token changed
    on its own. *)
Inductive reachable {P} `{AssetPort P} (me : address) : World P -> Prop :=
| reach_deployed p : reachable me (deployed p)
| reach_call w env c w' :
    reachable me w -> this env = me -> dispatch c env w = Ok (tt, w') ->
    reachable me w'
| reach_token w p : reachable me w -> reachable me (with_port p w).

(** Amount sent out for a stream, in total and to one account. *)
Definition push_amount (streamId : uint256) (c : PortCall) : N :=
  match c with
  | Push i _ _ a => if i =? streamId then a else 0
  | Pull _ _ _ _ => 0
  end.

Definition push_amount_to (streamId : uint256) (to : address) (c : PortCall) : N :=
  match c with
  | Push i _ t a => if (i =? streamId) && (t =? to) then a else 0
  | Pull _ _ _ _ => 0
  end.

(** Amount taken in for a stream. *)
Definition pull_amount (streamId : uint256) (c : PortCall) : N :=
  match c with
  | Pull i _ _ a => if i =? streamId then a else 0
  | Push _ _ _ _ => 0
  end.

Fixpoint pulled (streamId : uint256) (tr : list PortCall) : N :=
  match tr with
  | [] => 0
  | c :: tr' => pull_amount streamId c + pulled streamId tr'
  end.

Fixpoint paid_out (streamId : uint256) (tr : list PortCall) : N :=
  match tr with
  | [] => 0
  | c :: tr' => push_amount streamId c + paid_out streamId tr'
  end.

Fixpoint paid (streamId : uint256) (to : address) (tr : list PortCall) : N :=
  match tr with
  | [] => 0
  | c :: tr' => push_amount_to streamId to c + paid streamId to tr'
  end.

(** Whether a [StreamCreated] event carries this id. *)
Definition was_created (streamId : uint256) (evs : list Event) : bool :=
  existsb (fun e => match e with
                    | StreamCreated i _ _ _ _ _ _ _ => i =? streamId
                    | _ => false
                    end) evs.

(** What holds of the table and the trace between transactions. *)
Definition ledger_ok {P} (w : World P) : Prop :=
  (forall i s, streams w !! i = Some s ->
     i < _nextStreamId w /\ was_created i (events w) = true /\
     sender s <> recipient s) /\
  (forall i, let s := stream_at i w in
     paid_out i (trace w) + remaining s = deposit s /\
     paid_out i (trace w) = paid i (sender s) (trace w) + paid i (recipient s) (trace w) /\
     pulled i (trace w) = deposit s).

(** ** Concrete runs

    Alice streams to Bob through the contract deployed at [pay]; the token
    ledger starts with a balance for Alice only. *)

Definition alice : address := 1001.
Definition bob : address := 1002.
Definition carol : address := 1003.
Definition tok : address := 5000.
Definition pay : address := 9000.
Definition T0 : uint256 := 1700000000.

Definition bank0 : gmap (N * N) N := {[ (tok, alice) := 1000000 ]}.

Definition at_ (who : address) (t : uint256) : Env := mkEnv who t pay.

(** The value a call returns, without the world. *)
Definition value_of {P A} (r : Result (A * World P)) : Result A :=
  match r with
  | Ok (a, _) => Ok a
  | Err e => Err e
  end.

(** Alice opens stream 1: 1000 units over 100 seconds from [T0]. *)
Definition w_open : World (gmap (N * N) N) :=
  run (at_ alice T0) (CreateStream bob 1000 tok T0 (T0 + 100)) (deployed bank0).

(** Bob pauses it after 40 seconds and Alice resumes it at once. *)
Definition w_paused : World (gmap (N * N) N) :=
  run (at_ bob (T0 + 40)) (PauseStream 1) w_open.
Definition w_resumed : World (gmap (N * N) N) :=
  run (at_ alice (T0 + 40)) (ResumeStream 1) w_paused.

(** Alice opens a stream of 1003 units over 100 seconds; Bob withdraws all
    he can when it stops, which ends the stream with 3 units left. *)
Definition w_dust : World (gmap (N * N) N) :=
  run (at_ alice T0) (CreateStream bob 1003 tok T0 (T0 + 100)) (deployed bank0).
Definition w_ended : World (gmap (N * N) N) :=
  run (at_ bob (T0 + 100)) (WithdrawFromStream 1 0) w_dust.
Definition w_revived : World (gmap (N * N) N) :=
  run (at_ alice (T0 + 101)) (ResumeStream 1) w_ended.
Definition w_swept : World (gmap (N * N) N) :=
  run (at_ alice (T0 + 102)) (CancelStream 1) w_revived.

(** Alice grants Carol the right to create streams for her, then takes it
    back. *)
Definition w_granted : World (gmap (N * N) N) :=
  run (at_ alice T0) (AuthorizeDelegate carol createStreamOnBehalf_selector)
      (deployed bank0).
Definition w_revoked : World (gmap (N * N) N) :=
  run (at_ alice (T0 + 1)) (RevokeDelegate carol createStreamOnBehalf_selector)
      w_granted.

(** ** The token contract, [StreamToken.sol]

    An ERC-20 token with a supply cap, a set of minters kept by the owner,
    and a faucet.  The contract inherits OpenZeppelin's [ERC20] and
    [Ownable] (release 5, as the constructor [Ownable(msg.sender)] shows);
    the inherited members it calls ([owner], [onlyOwner], [totalSupply],
    [_mint], [transfer]) are written out below as that release defines
    them.  A call is a function of [msg.sender] and the storage. *)
Module StreamToken.

Inductive Error : Type :=
| Reason (reason : string)
| OwnableUnauthorizedAccount (account : address)
| OwnableInvalidOwner (account : address)
| ERC20InvalidSender (account : address)
| ERC20InvalidReceiver (account : address)
| ERC20InsufficientBalance (account : address) (balance needed : uint256)
| ArithmeticPanic.

Inductive Outcome (A : Type) : Type :=
| Done (a : A)
| Fail (e : Error).
Arguments Done {A} a.
Arguments Fail {A} e.

Inductive Log : Type :=
| Transfer (from to : address) (value : uint256)
| MinterAdded (account : address)
| MinterRemoved (account : address).

Record State : Type := mkState {
  _balances : gmap N N;
  _totalSupply : uint256;
  _minters : gmap N bool;
  _owner : address;
  log : list Log
}.

Definition MAX_SUPPLY : uint256 := 1000000000 * 10 ^ 18.

(** *** Inherited members *)

Definition balanceOf (st : State) (account : address) : uint256 :=
  default 0 (_balances st !! account).

Definition totalSupply (st : State) : uint256 := _totalSupply st.

Definition owner (st : State) : address := _owner st.

(** [ERC20._mint]: refuses the zero address, then adds to the supply
    (checked) and to the account's balance. *)
Definition _mint (account : address) (value : uint256) (st : State) : Outcome State :=
  if account =? 0 then Fail (ERC20InvalidReceiver 0)
  else if _totalSupply st + value <=? MAX_UINT256
  then Done (mkState (<[account := balanceOf st account + value]> (_balances st))
               (_totalSupply st + value) (_minters st) (_owner st)
               (Transfer 0 account value :: log st))
  else Fail ArithmeticPanic.

(** [ERC20.transfer], called by [from]. *)
Definition transfer (from to : address) (value : uint256) (st : State)
    : Outcome State :=
  if from =? 0 then Fail (ERC20InvalidSender 0)
  else if to =? 0 then Fail (ERC20InvalidReceiver 0)
  else if balanceOf st from <? value
  then Fail (ERC20InsufficientBalance from (balanceOf st from) value)
  else
    let b1 := <[from := balanceOf st from - value]> (_balances st) in
    Done (mkState (<[to := default 0 (b1 !! to) + value]> b1)
            (_totalSupply st) (_minters st) (_owner st)
            (Transfer from to value :: log st)).

(** *** The contract's own members *)


Definition isMinter (account : address) (st : State) : bool :=
  default false (_minters st !! account) || (account =? owner st).

Definition addMinter (msg_sender account : address) (st : State) : Outcome State :=
  if negb (msg_sender =? owner st) then Fail (OwnableUnauthorizedAccount msg_sender)
  else if account =? 0
  then Fail (Reason "StreamToken: cannot add zero address as minter")
  else Done (mkState (_balances st) (_totalSupply st)
               (<[account := true]> (_minters st)) (_owner st)
               (MinterAdded account :: log st)).

Definition removeMinter (msg_sender account : address) (st : State) : Outcome State :=
  if negb (msg_sender =? owner st) then Fail (OwnableUnauthorizedAccount msg_sender)
  else Done (mkState (_balances st) (_totalSupply st)
               (<[account := false]> (_minters st)) (_owner st)
               (MinterRemoved account :: log st)).

Definition mint (msg_sender to : address) (amount : uint256) (st : State)
    : Outcome State :=
  if negb (isMinter msg_sender st)
  then Fail (Reason "StreamToken: caller is not a minter")
  else if to =? 0 then Fail (Reason "StreamToken: mint to the zero address")
  else if negb (totalSupply st + amount <=? MAX_UINT256) then Fail ArithmeticPanic
  else if negb (totalSupply st + amount <=? MAX_SUPPLY)
  then Fail (Reason "StreamToken: exceeds maximum supply")
  else _mint to amount st.

Definition faucet (msg_sender : address) (amount : uint256) (st : State)
    : Outcome State :=
  if negb (amount <=? 1000 * 10 ^ 18)
  then Fail (Reason "StreamToken: faucet limited to 1000 tokens")
  else if negb (totalSupply st + amount <=? MAX_UINT256) then Fail ArithmeticPanic
  else if negb (totalSupply st + amount <=? MAX_SUPPLY)
  then Fail (Reason "StreamToken: exceeds maximum supply")
  else _mint msg_sender amount st.

(** What the recipient's [onERC20Received] does when called: it returns a
    boolean or it reverts (also when the recipient has no such function).
    [None] is a recipient without code. *)
Inductive Callback : Type :=
| Returned (success : bool)
| Reverted.

Definition safeTransfer (code : address -> option Callback)
    (msg_sender recipient : address) (amount : uint256) (st : State)
    : Outcome State :=
  match transfer msg_sender recipient amount st with
  | Fail e => Fail e
  | Done st' =>
      match code recipient with
      | None => Done st'
      | Some (Returned success) =>
          if success then Done st'
          else Fail (Reason "StreamToken: ERC20 transfer rejected by recipient")
      | Some Reverted => Done st'
      end
  end.


Definition decimals : N := 18.

(** *** Transactions *)





End StreamToken.

(** Further runs: Bob withdraws all he can 40 seconds into stream 1;
    Bob lets Carol withdraw for him; a token deployed by Alice. *)
Definition w_first : World (gmap (N * N) N) :=
  run (at_ bob (T0 + 40)) (WithdrawFromStream 1 0) w_open.
Definition w_bob_granted : World (gmap (N * N) N) :=
  run (at_ bob T0) (AuthorizeDelegate carol withdrawFromStreamOnBehalf_selector)
      w_open.

(** ** Vocabulary for the remaining operations *)

Definition NotActive : Failure := Revert "StreamPay: stream is not active".
Definition AlreadyActive : Failure := Revert "StreamPay: stream is already active".
Definition OnlySenderResumes : Failure :=
  Revert "StreamPay: only sender can resume the stream".
Definition NoFundsLeft : Failure := Revert "StreamPay: no funds left in the stream".
Definition NotAParty : Failure :=
  Revert "StreamPay: caller is not the sender or recipient".
Definition RecipientMismatch : Failure := Revert "StreamPay: recipient mismatch".
Definition SenderMismatch : Failure := Revert "StreamPay: sender mismatch".
Definition Unauthorized_withdraw : Failure :=
  Revert "StreamPay: not authorized to withdraw on behalf".
Definition Unauthorized_cancel : Failure :=
  Revert "StreamPay: not authorized to cancel on behalf".

(** [_delegateAuthorizations[delegator][delegate][functionSelector]] *)
Definition authorized {P} (delegator delegate : address) (functionSelector : bytes4)
    (w : World P) : bool :=
  default false (_delegateAuthorizations w !! (delegator, delegate, functionSelector)).

(** The same transaction seen with another [msg.sender]. *)
Definition called_by (who : address) (env : Env) : Env :=
  mkEnv who (block_timestamp env) (this env).

Definition is_cancel (c : Call) : bool :=
  match c with
  | CancelStream _ | CancelStreamOnBehalf _ _ => true
  | _ => false
  end.

(** What the source asks of the caller of each entry point. *)
Definition permitted {P} (c : Call) (env : Env) (w : World P) : Prop :=
  match c with
  | CreateStream _ _ _ _ _ => True
  | CreateStreamOnBehalf s _ _ _ _ _ =>
      authorized s (msg_sender env) createStreamOnBehalf_selector w = true
  | WithdrawFromStream i _ => msg_sender env = recipient (stream_at i w)
  | WithdrawFromStreamOnBehalf i r _ =>
      r = recipient (stream_at i w) /\
      authorized r (msg_sender env) withdrawFromStreamOnBehalf_selector w = true
  | CancelStream i | PauseStream i =>
      msg_sender env = sender (stream_at i w) \/
      msg_sender env = recipient (stream_at i w)
  | CancelStreamOnBehalf i s =>
      s = sender (stream_at i w) /\
      authorized s (msg_sender env) cancelStreamOnBehalf_selector w = true
  | ResumeStream i => msg_sender env = sender (stream_at i w)
  | AuthorizeDelegate _ _ | RevokeDelegate _ _ => True
  end.

(** Seconds of the window that have run at [now], and the amount they
    unlock: the [elapsedTime] and [withdrawable] locals of
    [withdrawableAmount]. *)
Definition elapsed_at (s : Stream) (now : uint256) : N :=
  if stopTime s <=? now then stopTime s - startTime s else now - startTime s.

Definition vested_at (s : Stream) (now : uint256) : N :=
  N.min (deposit s) (elapsed_at s now * ratePerSecond s).

(** A computation that does not look at [msg.sender]. *)
Definition caller_free {P A} (m : M P A) : Prop :=
  forall who env w, m (called_by who env) w = m env w.

(** ** Symbolic execution *)

Lemma stream_at_mk {P} streamId m a n (p : P) t e :
  stream_at streamId (mkWorld m a n p t e) = default zeroStream (m !! streamId).
Proof. reflexivity. Qed.

Lemma stream_at_Some {P} streamId (w : World P) :
  isActive (stream_at streamId w) = true \/ 0 < remaining (stream_at streamId w) ->
  streams w !! streamId = Some (stream_at streamId w).
Proof.
  unfold stream_at. destruct (streams w !! streamId); simpl; [done|].
  intros [?|?]; [done|lia].
Qed.

Lemma bind_inv {P A B} (m : M P A) (k : A -> M P B) env w r :
  bind m k env w = Ok r ->
  exists a w1, m env w = Ok (a, w1) /\ k a env w1 = Ok r.
Proof.
  unfold bind. destruct (m env w) as [[a w1]|]; [|done]. by exists a, w1.
Qed.

Ltac unfold_prims :=
  cbv [ret fail require checked_add checked_sub checked_mul
       sender_of timestamp self sload sstore emit safeTransferFrom safeTransfer
       isAuthorizedDelegate set_authorization next_id set_next_id].

Ltac unfold_prims_in E :=
  cbv [ret fail require checked_add checked_sub checked_mul
       sender_of timestamp self sload sstore emit safeTransferFrom safeTransfer
       isAuthorizedDelegate set_authorization next_id set_next_id] in E.

Ltac proj_simpl :=
  cbn [streams _delegateAuthorizations _nextStreamId port trace events
       sender recipient tokenAddress startTime stopTime deposit ratePerSecond
       remaining isActive set_startTime set_stopTime set_remaining set_isActive
       msg_sender block_timestamp this fst snd from_option id] in *.

Ltac normalise :=
  repeat first
    [ rewrite stream_at_mk in *
    | rewrite lookup_insert_eq in *
    | rewrite insert_insert_eq in *
    | progress proj_simpl ].

Ltac props :=
  repeat match goal with
  | E : negb _ = true |- _ => apply negb_true_iff in E
  | E : negb _ = false |- _ => apply negb_false_iff in E
  | E : (_ || _)%bool = true |- _ => apply orb_true_iff in E; destruct E
  | E : (_ || _)%bool = false |- _ => apply orb_false_iff in E; destruct E
  | E : (_ <=? _) = true |- _ => apply N.leb_le in E
  | E : (_ <=? _) = false |- _ => apply N.leb_gt in E
  | E : (_ <? _) = true |- _ => apply N.ltb_lt in E
  | E : (_ <? _) = false |- _ => apply N.ltb_ge in E
  | E : (_ =? _) = true |- _ => apply N.eqb_eq in E
  | E : (_ =? _) = false |- _ => apply N.eqb_neq in E
  end.

Ltac arith := repeat case_match; props; lia.

(** One step of inverting a successful run: split a [bind], open a
    primitive, or branch on a test of the source. *)
Ltac inv_step :=
  match goal with
  | E : Err _ = Ok _ |- _ => discriminate E
  | E : Ok _ = Ok _ |- _ => injection E as E; simplify_eq
  | E : bind _ _ _ _ = Ok _ |- _ =>
      apply bind_inv in E; destruct E as (? & ? & ? & ?)
  | E : (if ?c then _ else _) _ _ = Ok _ |- _ => destruct c eqn:?
  | E : (fun _ => _) _ _ = Ok _ |- _ => cbv beta in E
  | E : (if ?c then _ else _) = Ok _ |- _ => destruct c eqn:?
  | E : match ?x with Some _ => _ | None => _ end = Ok _ |- _ => destruct x eqn:?
  | E : _ = Ok _ |- _ => progress unfold_prims_in E
  end.

Ltac inv_run := repeat (inv_step; normalise).

(** Running a call forward: decide each test from the hypotheses. *)
Ltac solve_test :=
  lazymatch goal with
  | |- negb _ = true => apply negb_true_iff; solve_test
  | |- negb _ = false => apply negb_false_iff; solve_test
  | |- (_ || _)%bool = false => apply orb_false_iff; split; solve_test
  | |- (_ || _)%bool = true =>
      apply orb_true_iff; first [left; solve_test | right; solve_test]
  | |- (_ <=? _) = true => apply N.leb_le; lia
  | |- (_ <=? _) = false => apply N.leb_gt; lia
  | |- (_ <? _) = true => apply N.ltb_lt; lia
  | |- (_ <? _) = false => apply N.ltb_ge; lia
  | |- (_ =? _) = true => apply N.eqb_eq; lia
  | |- (_ =? _) = false => apply N.eqb_neq; lia
  | |- _ => first [assumption | reflexivity]
  end.

Ltac decide_test :=
  match goal with
  | |- context [if ?c then _ else _] =>
      first [ replace c with true by (symmetry; solve_test)
            | replace c with false by (symmetry; solve_test) ]
  end.

Ltac run_forward := unfold bind; unfold_prims; normalise; repeat (decide_test; normalise).

Section Proofs.
Context {P : Type} `{AssetPort P}.
Implicit Types (w : World P) (env : Env) (s : Stream) (p : P).

Lemma withdrawableAmount_view streamId env w v w' :
  withdrawableAmount streamId env w = Ok (v, w') -> w' = w.
Proof. unfold withdrawableAmount. intros Hrun. by inv_run. Qed.

Lemma withdrawableAmount_inactive streamId env w :
  isActive (stream_at streamId w) = false ->
  withdrawableAmount streamId env w = Ok (0, w).
Proof.
  intros Hoff. unfold withdrawableAmount, bind. unfold_prims. by rewrite Hoff.
Qed.

Lemma withdrawableAmount_le_remaining streamId env w v w' :
  withdrawableAmount streamId env w = Ok (v, w') ->
  v <= remaining (stream_at streamId w).
Proof.
  unfold withdrawableAmount. intros Hrun. inv_run; arith.
Qed.

Ltac view_step :=
  match goal with
  | E : withdrawableAmount _ _ ?w = Ok (_, ?w1) |- _ =>
      is_var w1; pose proof (withdrawableAmount_view _ _ _ _ _ E); subst w1
  end.

Lemma _withdrawFromStream_inv streamId r amount env w w' :
  _withdrawFromStream streamId r amount env w = Ok (tt, w') ->
  let s := stream_at streamId w in
  exists wd p',
    let amt := if amount =? 0 then wd else amount in
    isActive s = true /\ recipient s = r /\
    withdrawableAmount streamId env w = Ok (wd, w) /\
    0 < amt /\ amt <= wd /\
    port_push (port w) (tokenAddress s) (this env) r amt = Some p' /\
    w' = mkWorld
           (<[streamId :=
                set_isActive
                  (negb ((stopTime s <=? block_timestamp env) || (remaining s - amt =? 0)))
                  (set_remaining (remaining s - amt) s)]> (streams w))
           (_delegateAuthorizations w) (_nextStreamId w) p'
           (Push streamId (tokenAddress s) r amt :: trace w)
           (StreamWithdrawn streamId r amt :: events w).
Proof.
  unfold _withdrawFromStream. intros Hrun.
  repeat (first [view_step | inv_step]; normalise).
  all: eexists _, _; repeat split; eauto; try arith.
  all: match goal with E : (_ || _)%bool = _ |- _ => rewrite E end; try done.
  destruct (stream_at streamId _); cbn in *. by subst.
Qed.

Ltac off_step :=
  match goal with
  | E : withdrawableAmount _ _ (mkWorld _ _ _ _ _ _) = Ok _ |- _ =>
      rewrite withdrawableAmount_inactive in E
        by (rewrite stream_at_mk, lookup_insert_eq; reflexivity)
  end.

Ltac inv_all := repeat (first [view_step | off_step | inv_step]; normalise).

Lemma _cancelStream_inv streamId caller env w w' :
  _cancelStream streamId caller env w = Ok (tt, w') ->
  let s := stream_at streamId w in
  exists p',
    isActive s = true /\ (sender s = caller \/ recipient s = caller) /\
    push_if (port w) (tokenAddress s) (this env) (sender s) (remaining s) = Some p' /\
    w' = mkWorld
           (<[streamId := set_remaining 0 (set_isActive false s)]> (streams w))
           (_delegateAuthorizations w) (_nextStreamId w) p'
           (pushed_if streamId (tokenAddress s) (sender s) (remaining s) ++ trace w)
           (StreamCancelled streamId (sender s) (recipient s) (remaining s) 0
              :: events w).
Proof.
  unfold _cancelStream, push_if, pushed_if. intros Hrun. inv_all.
  all: rewrite ?N.sub_0_r in *.
  all: repeat match goal with E : (0 <? _) = _ |- _ => rewrite E end.
  all: eexists; repeat split; eauto; props; tauto.
Qed.

Lemma pauseStream_inv streamId env w w' :
  pauseStream streamId env w = Ok (tt, w') ->
  let s := stream_at streamId w in
  exists wd p',
    isActive s = true /\
    (sender s = msg_sender env \/ recipient s = msg_sender env) /\
    withdrawableAmount streamId env w = Ok (wd, w) /\
    push_if (port w) (tokenAddress s) (this env) (recipient s) wd = Some p' /\
    w' = mkWorld
           (<[streamId :=
                set_isActive false
                  (set_stopTime
                     (if block_timestamp env <? stopTime s
                      then stopTime s - block_timestamp env else 0)
                     (set_remaining (remaining s - wd) s))]> (streams w))
           (_delegateAuthorizations w) (_nextStreamId w) p'
           (pushed_if streamId (tokenAddress s) (recipient s) wd ++ trace w)
           (StreamPaused streamId (msg_sender env) :: events w).
Proof.
  unfold pauseStream, push_if, pushed_if. intros Hrun. inv_all.
  all: eexists _, _; repeat split; eauto.
  all: repeat match goal with E : (_ <? _) = _ |- _ => rewrite E end; try done.
  all: props; tauto.
Qed.

Lemma resumeStream_inv streamId env w w' :
  resumeStream streamId env w = Ok (tt, w') ->
  let s := stream_at streamId w in
  isActive s = false /\ sender s = msg_sender env /\ 0 < remaining s /\
  block_timestamp env + stopTime s <= MAX_UINT256 /\
  w' = mkWorld
         (<[streamId :=
              set_isActive true
                (set_stopTime (block_timestamp env + stopTime s)
                   (set_startTime (block_timestamp env) s))]> (streams w))
         (_delegateAuthorizations w) (_nextStreamId w) (port w) (trace w)
         (StreamResumed streamId (msg_sender env) :: events w).
Proof.
  unfold resumeStream. intros Hrun. inv_all.
  repeat split; eauto; props; done.
Qed.

Lemma _createStream_inv sender_ recipient_ deposit_ tokenAddress_ startTime_ stopTime_
    env w streamId w' :
  _createStream sender_ recipient_ deposit_ tokenAddress_ startTime_ stopTime_ env w
    = Ok (streamId, w') ->
  exists p',
    recipient_ <> 0 /\ recipient_ <> this env /\ recipient_ <> sender_ /\
    0 < deposit_ /\ block_timestamp env <= startTime_ /\ startTime_ < stopTime_ /\
    stopTime_ - startTime_ <= deposit_ /\
    port_pull (port w) tokenAddress_ sender_ (this env) deposit_ = Some p' /\
    _nextStreamId w + 1 <= MAX_UINT256 /\
    streamId = _nextStreamId w /\
    w' = mkWorld
           (<[streamId :=
                mkStream sender_ recipient_ tokenAddress_ startTime_ stopTime_
                  deposit_ (deposit_ / (stopTime_ - startTime_)) deposit_ true]>
              (streams w))
           (_delegateAuthorizations w) (_nextStreamId w + 1) p'
           (Pull streamId tokenAddress_ sender_ deposit_ :: trace w)
           (StreamCreated streamId sender_ recipient_ tokenAddress_ startTime_
              stopTime_ deposit_ (deposit_ / (stopTime_ - startTime_)) :: events w).
Proof.
  unfold _createStream. intros Hrun. inv_all.
  eexists; repeat split; eauto; props; done.
Qed.

Lemma authorizeDelegate_inv delegate functionSelector env w w' :
  authorizeDelegate delegate functionSelector env w = Ok (tt, w') ->
  delegate <> 0 /\
  w' = mkWorld (streams w)
         (<[(msg_sender env, delegate, functionSelector) := true]>
            (_delegateAuthorizations w))
         (_nextStreamId w) (port w) (trace w)
         (DelegateAuthorized (msg_sender env) delegate functionSelector :: events w).
Proof.
  unfold authorizeDelegate. intros Hrun. inv_all. props. done.
Qed.

Lemma revokeDelegate_run delegate functionSelector env w :
  revokeDelegate delegate functionSelector env w =
  Ok (tt, mkWorld (streams w)
         (<[(msg_sender env, delegate, functionSelector) := false]>
            (_delegateAuthorizations w))
         (_nextStreamId w) (port w) (trace w)
         (DelegateRevoked (msg_sender env) delegate functionSelector :: events w)).
Proof. reflexivity. Qed.

(** ** The ledger invariant *)

Lemma paid_out_app streamId tr1 tr2 :
  paid_out streamId (tr1 ++ tr2) = paid_out streamId tr1 + paid_out streamId tr2.
Proof. induction tr1 as [|c tr1 IH]; simpl; [done|]. rewrite IH. lia. Qed.

Lemma paid_app streamId to tr1 tr2 :
  paid streamId to (tr1 ++ tr2) = paid streamId to tr1 + paid streamId to tr2.
Proof. induction tr1 as [|c tr1 IH]; simpl; [done|]. rewrite IH. lia. Qed.

Lemma pulled_pushed_if streamId i token to amount tr :
  pulled i (pushed_if streamId token to amount ++ tr) = pulled i tr.
Proof. unfold pushed_if. by destruct (0 <? amount). Qed.

Lemma paid_out_pushed_if streamId i token to amount :
  paid_out i (pushed_if streamId token to amount) =
  if streamId =? i then amount else 0.
Proof.
  unfold pushed_if. destruct (0 <? amount) eqn:Hpos; simpl.
  - destruct (streamId =? i); lia.
  - props. destruct (streamId =? i); lia.
Qed.

Lemma paid_pushed_if streamId i token to to' amount :
  paid i to' (pushed_if streamId token to amount) =
  if (streamId =? i) && (to =? to') then amount else 0.
Proof.
  unfold pushed_if. destruct (0 <? amount) eqn:Hpos; simpl.
  - destruct ((streamId =? i) && (to =? to')); lia.
  - props. destruct ((streamId =? i) && (to =? to')); lia.
Qed.

Lemma stream_at_insert_ne streamId i s' m a n (p : P) t e :
  streamId <> i ->
  stream_at i (mkWorld (<[streamId := s']> m) a n p t e) = default zeroStream (m !! i).
Proof. intros Hne. by rewrite stream_at_mk, lookup_insert_ne. Qed.

Lemma ledger_ok_settle w streamId s' a p token to amount ev :
  ledger_ok w ->
  let s := stream_at streamId w in
  isActive s = true \/ 0 < remaining s ->
  sender s' = sender s -> recipient s' = recipient s -> deposit s' = deposit s ->
  to = sender s \/ to = recipient s ->
  remaining s' + amount = remaining s ->
  (forall i, was_created i (events w) = true -> was_created i ev = true) ->
  ledger_ok (mkWorld (<[streamId := s']> (streams w)) a (_nextStreamId w) p
               (pushed_if streamId token to amount ++ trace w) ev).
Proof.
  intros [Hrec Hsum] s Hlive Hsnd Hrcp Hdep Hto Hrem Hev.
  pose proof (stream_at_Some _ _ Hlive) as Hs. fold s in Hs.
  destruct (Hrec _ _ Hs) as (Hlt & Hcr & Hne).
  split.
  - intros i s0 Hi. proj_simpl.
    destruct (decide (streamId = i)) as [->|Hdiff].
    + rewrite lookup_insert_eq in Hi. simplify_eq.
      rewrite Hsnd, Hrcp. auto.
    + rewrite lookup_insert_ne in Hi by done.
      destruct (Hrec _ _ Hi) as (? & ? & ?). auto.
  - intros i. cbn zeta. cbn [trace].
    rewrite pulled_pushed_if, paid_out_app, !paid_app, paid_out_pushed_if,
      !paid_pushed_if.
    destruct (decide (streamId = i)) as [->|Hdiff].
    + rewrite stream_at_mk, lookup_insert_eq. cbn [from_option id].
      rewrite N.eqb_refl, Hsnd, Hrcp, Hdep. cbn [andb].
      destruct (Hsum i) as (Hs1 & Hs2 & Hs3). fold s in Hs1, Hs2, Hs3.
      destruct Hto as [-> | ->].
      * rewrite N.eqb_refl.
        destruct (sender s =? recipient s) eqn:E; props; [done|lia].
      * rewrite N.eqb_refl.
        destruct (recipient s =? sender s) eqn:E; props; [congruence|lia].
    + rewrite stream_at_insert_ne by done.
      destruct (streamId =? i) eqn:E; props; [done|]. cbn [andb].
      apply (Hsum i).
Qed.

Lemma paid_le_paid_out streamId to tr : paid streamId to tr <= paid_out streamId tr.
Proof.
  induction tr as [|c tr IH]; simpl; [done|].
  destruct c as [|i t a b]; simpl; [lia|].
  destruct (i =? streamId), (a =? to); simpl; lia.
Qed.

Lemma was_created_cons i e evs :
  was_created i evs = true -> was_created i (e :: evs) = true.
Proof. unfold was_created. simpl. intros ->. apply orb_true_r. Qed.

Lemma ledger_ok_fresh w i :
  ledger_ok w -> _nextStreamId w <= i -> streams w !! i = None.
Proof.
  intros [Hrec _] Hge. destruct (streams w !! i) as [s|] eqn:Hi; [|done].
  destruct (Hrec _ _ Hi). lia.
Qed.

Lemma ledger_ok_create w sender_ recipient_ token start stop amount rate a p :
  ledger_ok w -> recipient_ <> sender_ ->
  let i := _nextStreamId w in
  ledger_ok (mkWorld
    (<[i := mkStream sender_ recipient_ token start stop amount rate amount true]>
       (streams w))
    a (i + 1) p (Pull i token sender_ amount :: trace w)
    (StreamCreated i sender_ recipient_ token start stop amount rate :: events w)).
Proof.
  intros Hok Hne i. pose proof (ledger_ok_fresh w i Hok (N.le_refl _)) as Hnew.
  destruct Hok as [Hrec Hsum]. split.
  - intros j s Hj. proj_simpl.
    destruct (decide (i = j)) as [<-|Hdiff].
    + rewrite lookup_insert_eq in Hj. simplify_eq. proj_simpl.
      unfold was_created. simpl. rewrite N.eqb_refl.
      split; [lia|]. split; [done|congruence].
    + rewrite lookup_insert_ne in Hj by done.
      destruct (Hrec _ _ Hj) as (? & ? & ?).
      split; [fold i; lia|]. split; [by apply was_created_cons|done].
  - intros j. cbn zeta.
    cbn [trace paid_out paid pulled push_amount push_amount_to pull_amount].
    rewrite !N.add_0_l.
    destruct (decide (i = j)) as [<-|Hdiff].
    + rewrite stream_at_mk, lookup_insert_eq, N.eqb_refl. proj_simpl.
      destruct (Hsum i) as (Hs1 & _ & Hs3). unfold stream_at in Hs1, Hs3.
      rewrite Hnew in Hs1, Hs3. simpl in Hs1, Hs3.
      pose proof (paid_le_paid_out i sender_ (trace w)).
      pose proof (paid_le_paid_out i recipient_ (trace w)). lia.
    + rewrite stream_at_insert_ne by done.
      destruct (i =? j) eqn:E; props; [done|]. rewrite N.add_0_l. apply (Hsum j).
Qed.

Lemma ledger_ok_frame w a p ev :
  ledger_ok w ->
  (forall i, was_created i (events w) = true -> was_created i ev = true) ->
  ledger_ok (mkWorld (streams w) a (_nextStreamId w) p (trace w) ev).
Proof.
  intros [Hrec Hsum] Hev. split.
  - intros i s Hi. destruct (Hrec _ _ Hi) as (? & ? & ?). proj_simpl. auto.
  - intros i. apply (Hsum i).
Qed.

Lemma ledger_ok_deployed p : ledger_ok (deployed p).
Proof.
  split.
  - intros i s Hi. unfold deployed in Hi. proj_simpl. by rewrite lookup_empty in Hi.
  - intros i. unfold deployed, stream_at. proj_simpl. by rewrite lookup_empty.
Qed.

Lemma ledger_ok_withdraw streamId r amount env w w' :
  ledger_ok w -> _withdrawFromStream streamId r amount env w = Ok (tt, w') ->
  ledger_ok w'.
Proof.
  intros Hok Hrun.
  destruct (_withdrawFromStream_inv _ _ _ _ _ _ Hrun)
    as (wd & p' & Hact & Hr & Hwd & Hpos & Hle & _ & ->).
  pose proof (withdrawableAmount_le_remaining _ _ _ _ _ Hwd) as Hbound.
  set (amt := if amount =? 0 then wd else amount) in *.
  replace (Push streamId (tokenAddress (stream_at streamId w)) r amt :: trace w)
    with (pushed_if streamId (tokenAddress (stream_at streamId w)) r amt ++ trace w).
  2: { unfold pushed_if.
       by replace (0 <? amt) with true by (symmetry; apply N.ltb_lt; lia). }
  apply ledger_ok_settle; auto using was_created_cons.
  proj_simpl. lia.
Qed.

Lemma ledger_ok_cancel streamId caller env w w' :
  ledger_ok w -> _cancelStream streamId caller env w = Ok (tt, w') -> ledger_ok w'.
Proof.
  intros Hok Hrun.
  destruct (_cancelStream_inv _ _ _ _ _ Hrun) as (p' & Hact & _ & _ & ->).
  apply ledger_ok_settle; auto using was_created_cons.
Qed.

Lemma ledger_ok_pause streamId env w w' :
  ledger_ok w -> pauseStream streamId env w = Ok (tt, w') -> ledger_ok w'.
Proof.
  intros Hok Hrun.
  destruct (pauseStream_inv _ _ _ _ Hrun) as (wd & p' & Hact & _ & Hwd & _ & ->).
  pose proof (withdrawableAmount_le_remaining _ _ _ _ _ Hwd) as Hbound.
  apply ledger_ok_settle; auto using was_created_cons.
  proj_simpl. lia.
Qed.

Lemma ledger_ok_resume streamId env w w' :
  ledger_ok w -> resumeStream streamId env w = Ok (tt, w') -> ledger_ok w'.
Proof.
  intros Hok Hrun.
  destruct (resumeStream_inv _ _ _ _ Hrun) as (Hoff & _ & Hpos & _ & ->).
  change (trace w) with (pushed_if streamId 0 (sender (stream_at streamId w)) 0 ++ trace w).
  apply ledger_ok_settle; auto using was_created_cons.
  proj_simpl. lia.
Qed.

Lemma ledger_ok_created sender_ recipient_ deposit_ tokenAddress_ startTime_ stopTime_
    env w streamId w' :
  ledger_ok w ->
  _createStream sender_ recipient_ deposit_ tokenAddress_ startTime_ stopTime_ env w
    = Ok (streamId, w') ->
  ledger_ok w'.
Proof.
  intros Hok Hrun.
  destruct (_createStream_inv _ _ _ _ _ _ _ _ _ _ Hrun)
    as (p' & _ & _ & Hne & _ & _ & _ & _ & _ & _ & -> & ->).
  by apply ledger_ok_create.
Qed.

Lemma ledger_ok_step env c w w' :
  ledger_ok w -> dispatch c env w = Ok (tt, w') -> ledger_ok w'.
Proof.
  intros Hok Hrun. destruct c; simpl in Hrun;
    unfold createStream, createStreamOnBehalf, withdrawFromStream,
      withdrawFromStreamOnBehalf, cancelStream, cancelStreamOnBehalf in Hrun;
    inv_all;
    eauto using ledger_ok_created, ledger_ok_withdraw, ledger_ok_cancel,
      ledger_ok_pause, ledger_ok_resume.
  - match goal with E : authorizeDelegate _ _ _ _ = _ |- _ =>
      apply authorizeDelegate_inv in E as [_ ->] end.
    apply ledger_ok_frame; auto using was_created_cons.
  - rewrite revokeDelegate_run in Hrun. simplify_eq.
    apply ledger_ok_frame; auto using was_created_cons.
Qed.

Lemma reachable_ledger_ok me w : reachable me w -> ledger_ok w.
Proof.
  induction 1 as [p|w env c w' _ IH _ Hrun|w p _ IH].
  - apply ledger_ok_deployed.
  - eauto using ledger_ok_step.
  - by apply ledger_ok_frame.
Qed.

Lemma reachable_run me env c w :
  reachable me w -> this env = me -> reachable me (run env c w).
Proof.
  intros Hw Hme. unfold run.
  destruct (dispatch c env w) as [[[] w']|] eqn:Hrun; [|done].
  by eapply reach_call.
Qed.

(** A stream that is inactive with nothing left (cancelled, or drained by
    its last withdrawal) is final: no call changes its record or pushes
    anything for it. *)
Lemma drained_stream_is_final me w c env w' i :
  reachable me w -> is_Some (streams w !! i) ->
  isActive (stream_at i w) = false -> remaining (stream_at i w) = 0 ->
  dispatch c env w = Ok (tt, w') ->
  stream_at i w' = stream_at i w /\ paid_out i (trace w') = paid_out i (trace w).
Proof.
  intros Hreach [s Hs] Hoff Hzero Hrun.
  destruct (reachable_ledger_ok _ _ Hreach) as [Hrec _].
  destruct (Hrec _ _ Hs) as (Hlt & _ & _).
  assert (Hother : forall streamId token to amount,
            streamId <> i ->
            paid_out i (pushed_if streamId token to amount ++ trace w)
              = paid_out i (trace w)).
  { intros streamId token to amount Hne.
    rewrite paid_out_app, paid_out_pushed_if.
    by destruct (streamId =? i) eqn:E; props. }
  destruct c; simpl in Hrun;
    unfold createStream, createStreamOnBehalf, withdrawFromStream,
      withdrawFromStreamOnBehalf, cancelStream, cancelStreamOnBehalf in Hrun;
    inv_all.
  1, 2: match goal with E : _createStream _ _ _ _ _ _ _ _ = _ |- _ =>
      destruct (_createStream_inv _ _ _ _ _ _ _ _ _ _ E)
        as (p' & _ & _ & _ & _ & _ & _ & _ & _ & _ & -> & ->) end;
    rewrite stream_at_insert_ne by lia; proj_simpl;
    split; [done|]; cbn; by rewrite N.add_0_l.
  1, 2: match goal with E : _withdrawFromStream ?j _ _ _ _ = _ |- _ =>
      destruct (_withdrawFromStream_inv _ _ _ _ _ _ E)
        as (wd & p' & Hact & _ & _ & _ & _ & _ & ->);
      destruct (decide (j = i)) as [->|Hne]; [congruence|];
      rewrite stream_at_insert_ne by done; proj_simpl;
      split; [done|]; cbn; by replace (j =? i) with false by (symmetry; solve_test)
    end.
  1, 2: match goal with E : _cancelStream ?j _ _ _ = _ |- _ =>
      destruct (_cancelStream_inv _ _ _ _ _ E) as (p' & Hact & _ & _ & ->);
      destruct (decide (j = i)) as [->|Hne]; [congruence|];
      rewrite stream_at_insert_ne by done; proj_simpl; split; [done|]; by apply Hother
    end.
  - destruct (pauseStream_inv _ _ _ _ Hrun) as (wd & p' & Hact & _ & _ & _ & ->).
    destruct (decide (streamId = i)) as [->|Hne]; [congruence|].
    rewrite stream_at_insert_ne by done. proj_simpl. split; [done|]. by apply Hother.
  - destruct (resumeStream_inv _ _ _ _ Hrun) as (_ & _ & Hpos & _ & ->).
    destruct (decide (streamId = i)) as [->|Hne]; [lia|].
    by rewrite stream_at_insert_ne by done.
  - match goal with E : authorizeDelegate _ _ _ _ = _ |- _ =>
      apply authorizeDelegate_inv in E as [_ ->] end. done.
  - rewrite revokeDelegate_run in Hrun. by simplify_eq.
Qed.

(** ** Forward execution *)

Lemma _createStream_run sender_ recipient_ deposit_ tokenAddress_ startTime_ stopTime_
    env w :
  _nextStreamId w < MAX_UINT256 ->
  creation_request_ok sender_ recipient_ deposit_ tokenAddress_ startTime_ stopTime_
    env w ->
  exists w', _createStream sender_ recipient_ deposit_ tokenAddress_ startTime_ stopTime_
               env w = Ok (_nextStreamId w, w').
Proof.
  intros Hctr (Hz & Hme & Hs & Hd & Hnow & Hwin & Hrate & [p' Hpull]).
  unfold _createStream. run_forward. rewrite Hpull. run_forward. eauto.
Qed.

(** ** Properties of the operations *)

(** C6. [_createStream] returns exactly when the recipient is not the zero
    address, not the contract and not the sender, the deposit is positive,
    the start is not in the past, the stop is after the start, the deposit
    is at least the duration, and the pull of the deposit succeeds (the id
    counter being below its maximum).  The record it stores has
    [ratePerSecond = deposit / (stopTime - startTime) >= 1],
    [remaining = deposit] and [isActive = true]. *)
Theorem createStream_succeeds_iff sender_ recipient_ deposit_ tokenAddress_
    startTime_ stopTime_ env w :
  _nextStreamId w < MAX_UINT256 ->
  ((exists i w', _createStream sender_ recipient_ deposit_ tokenAddress_
                   startTime_ stopTime_ env w = Ok (i, w')) <->
   creation_request_ok sender_ recipient_ deposit_ tokenAddress_ startTime_ stopTime_ env w)
  /\
  (forall i w', _createStream sender_ recipient_ deposit_ tokenAddress_
                  startTime_ stopTime_ env w = Ok (i, w') ->
     let s := stream_at i w' in
     i = _nextStreamId w /\ streams w' !! i = Some s /\
     sender s = sender_ /\ recipient s = recipient_ /\ deposit s = deposit_ /\
     ratePerSecond s = deposit_ / (stopTime_ - startTime_) /\
     1 <= ratePerSecond s /\ remaining s = deposit_ /\ isActive s = true).
Proof.
  intros Hctr. split; [split|].
  - intros (i & w' & Hrun).
    destruct (_createStream_inv _ _ _ _ _ _ _ _ _ _ Hrun)
      as (p' & ? & ? & ? & ? & ? & ? & ? & Hpull & _).
    unfold creation_request_ok. rewrite Hpull. eauto 10.
  - intros Hok. destruct (_createStream_run _ _ _ _ _ _ _ _ Hctr Hok) as [w' Hrun].
    eauto.
  - intros i w' Hrun.
    destruct (_createStream_inv _ _ _ _ _ _ _ _ _ _ Hrun)
      as (p' & _ & _ & _ & Hd & _ & Hwin & Hrate & _ & _ & -> & ->).
    cbn zeta. normalise. split_and!; try done.
    apply N.div_le_lower_bound; lia.
Qed.

Lemma _withdrawFromStream_nothing streamId amount env w :
  isActive (stream_at streamId w) = true ->
  withdrawableAmount streamId env w = Ok (0, w) ->
  _withdrawFromStream streamId (recipient (stream_at streamId w)) amount env w
    = Err NothingToWithdraw.
Proof.
  intros Hact Hwd. unfold _withdrawFromStream. run_forward. rewrite Hwd.
  by run_forward.
Qed.

Lemma _withdrawFromStream_run streamId amount env w wd :
  isActive (stream_at streamId w) = true ->
  withdrawableAmount streamId env w = Ok (wd, w) ->
  0 < wd ->
  _withdrawFromStream streamId (recipient (stream_at streamId w)) amount env w =
    let s := stream_at streamId w in
    let amt := if amount =? 0 then wd else amount in
    if amt <=? wd then
      match port_push (port w) (tokenAddress s) (this env) (recipient s) amt with
      | Some p' =>
          Ok (tt, mkWorld
            (<[streamId :=
                 set_isActive
                   (negb ((stopTime s <=? block_timestamp env)
                          || (remaining s - amt =? 0)))
                   (set_remaining (remaining s - amt) s)]> (streams w))
            (_delegateAuthorizations w) (_nextStreamId w) p'
            (Push streamId (tokenAddress s) (recipient s) amt :: trace w)
            (StreamWithdrawn streamId (recipient s) amt :: events w))
      | None => Err TransferFailed
      end
    else Err AmountExceedsWithdrawable.
Proof.
  intros Hact Hwd Hpos.
  pose proof (withdrawableAmount_le_remaining _ _ _ _ _ Hwd) as Hbound.
  cbn zeta. unfold _withdrawFromStream. run_forward. rewrite Hwd. run_forward.
  cbn zeta.
  destruct ((if amount =? 0 then wd else amount) <=? wd) eqn:Hle; [|done].
  assert ((if amount =? 0 then wd else amount) <= remaining (stream_at streamId w))
    by (props; lia).
  run_forward.
  match goal with |- context [if ?c then _ else _] => destruct c eqn:Hend end;
    normalise; destruct (port_push _ _ _ _ _); try done.
  repeat f_equal. destruct (stream_at streamId w); cbn in *. by subst.
Qed.

(** C7. On an active stream whose withdrawable amount is [wd], a withdrawal
    by the recipient fails with [NothingToWithdraw] exactly when [wd = 0];
    with [wd > 0], a request of [0] withdraws [wd], a nonzero request above
    [wd] fails with [AmountExceedsWithdrawable], and a nonzero request of at
    most [wd] withdraws that amount: [remaining] drops by it and it is
    pushed to the recipient (the push being accepted by the token). *)
Theorem withdrawFromStream_cases streamId amount env w wd :
  let s := stream_at streamId w in
  let result := _withdrawFromStream streamId (recipient s) amount env w in
  isActive s = true ->
  withdrawableAmount streamId env w = Ok (wd, w) ->
  (result = Err NothingToWithdraw <-> wd = 0) /\
  (0 < wd -> amount <> 0 -> wd < amount -> result = Err AmountExceedsWithdrawable) /\
  (forall p', 0 < wd -> amount = 0 ->
     port_push (port w) (tokenAddress s) (this env) (recipient s) wd = Some p' ->
     exists w', result = Ok (tt, w') /\
       remaining (stream_at streamId w') + wd = remaining s /\
       trace w' = Push streamId (tokenAddress s) (recipient s) wd :: trace w) /\
  (forall p', amount <> 0 -> amount <= wd ->
     port_push (port w) (tokenAddress s) (this env) (recipient s) amount = Some p' ->
     exists w', result = Ok (tt, w') /\
       remaining (stream_at streamId w') + amount = remaining s /\
       trace w' = Push streamId (tokenAddress s) (recipient s) amount :: trace w).
Proof.
  intros s result Hact Hwd. subst s result.
  pose proof (withdrawableAmount_le_remaining _ _ _ _ _ Hwd) as Hbound.
  pose proof (_withdrawFromStream_run streamId amount env w wd Hact Hwd) as Hrun.
  cbn zeta in Hrun.
  split_and!; [split|..].
  - intros Hres. destruct (N.eq_0_gt_0_cases wd) as [|Hpos]; [done|].
    rewrite (Hrun Hpos) in Hres. repeat case_match; discriminate.
  - intros ->. by apply _withdrawFromStream_nothing.
  - intros Hpos Hnz Hgt. rewrite (Hrun Hpos).
    replace (amount =? 0) with false by (symmetry; solve_test).
    by replace (amount <=? wd) with false by (symmetry; solve_test).
  - intros p' Hpos -> Hpush. rewrite (Hrun Hpos), N.eqb_refl, N.leb_refl, Hpush.
    eexists; split; [done|]. normalise. split; [lia|done].
  - intros p' Hnz Hle Hpush. assert (0 < wd) as Hpos by lia.
    rewrite (Hrun Hpos).
    replace (amount =? 0) with false in * by (symmetry; solve_test).
    replace (amount <=? wd) with true by (symmetry; solve_test).
    rewrite Hpush. eexists; split; [done|]. normalise. split; [lia|done].
Qed.

(** C8. A withdrawal that returns leaves [sender], [recipient],
    [tokenAddress], [deposit], [startTime], [stopTime] and [ratePerSecond]
    of every stream as they were; the streams it was not made on are
    untouched altogether. *)
Theorem withdrawal_frame c env w w' i :
  is_withdrawal c = true ->
  dispatch c env w = Ok (tt, w') ->
  let s := stream_at i w in
  let s' := stream_at i w' in
  sender s' = sender s /\ recipient s' = recipient s /\
  tokenAddress s' = tokenAddress s /\ deposit s' = deposit s /\
  startTime s' = startTime s /\ stopTime s' = stopTime s /\
  ratePerSecond s' = ratePerSecond s /\
  (call_stream c <> Some i -> s' = s).
Proof.
  intros Hc Hrun.
  assert (exists streamId r amount,
    _withdrawFromStream streamId r amount env w = Ok (tt, w') /\
    call_stream c = Some streamId)
    as (streamId & r & amount & Hw & Hid).
  { destruct c; try discriminate Hc; simpl in Hrun;
      unfold withdrawFromStream, withdrawFromStreamOnBehalf in Hrun; inv_all;
      eexists _, _, _; by split. }
  destruct (_withdrawFromStream_inv _ _ _ _ _ _ Hw)
    as (wd & p' & _ & _ & _ & _ & _ & _ & ->).
  cbn zeta. destruct (decide (streamId = i)) as [->|Hne].
  - normalise. by split_and!.
  - rewrite stream_at_insert_ne by done. fold (stream_at i w). by split_and!.
Qed.

(** C9. A call of [createStreamOnBehalf] by a delegate without a grant
    reverts as unauthorized; once the sender has granted the delegate the
    selector of [createStreamOnBehalf], the same call (a valid request
    otherwise) returns; once the sender has revoked the grant, the call
    reverts as unauthorized again. *)
Theorem createStreamOnBehalf_follows_grant sender_ delegate recipient_ deposit_
    tokenAddress_ startTime_ stopTime_ env w :
  msg_sender env = delegate ->
  let call := createStreamOnBehalf sender_ recipient_ deposit_ tokenAddress_
                startTime_ stopTime_ env in
  (isAuthorizedDelegate sender_ delegate createStreamOnBehalf_selector env w
     = Ok (false, w) ->
   call w = Err Unauthorized) /\
  (forall envg w1,
     msg_sender envg = sender_ ->
     authorizeDelegate delegate createStreamOnBehalf_selector envg w = Ok (tt, w1) ->
     _nextStreamId w < MAX_UINT256 ->
     creation_request_ok sender_ recipient_ deposit_ tokenAddress_ startTime_
       stopTime_ env w ->
     exists i w2, call w1 = Ok (i, w2)) /\
  (forall envr w0 w3,
     msg_sender envr = sender_ ->
     revokeDelegate delegate createStreamOnBehalf_selector envr w0 = Ok (tt, w3) ->
     call w3 = Err Unauthorized).
Proof.
  intros Hcaller call. subst call. split_and!.
  - intros Hnone. unfold createStreamOnBehalf. unfold bind at 1 2.
    unfold sender_of at 1. rewrite Hcaller, Hnone. reflexivity.
  - intros envg w1 Hg Hgrant Hctr Hok.
    apply authorizeDelegate_inv in Hgrant as [_ ->].
    destruct (_createStream_run sender_ recipient_ deposit_ tokenAddress_ startTime_
                stopTime_ env
                (mkWorld (streams w)
                   (<[(msg_sender envg, delegate, createStreamOnBehalf_selector) := true]>
                      (_delegateAuthorizations w))
                   (_nextStreamId w) (port w) (trace w)
                   (DelegateAuthorized (msg_sender envg) delegate
                      createStreamOnBehalf_selector :: events w)))
      as [w2 Hrun]; [done|done|].
    exists (_nextStreamId w), w2.
    unfold createStreamOnBehalf. unfold bind at 1 2 3. unfold_prims. proj_simpl.
    rewrite Hg in Hrun. rewrite Hcaller, Hg, lookup_insert_eq. exact Hrun.
  - intros envr w0 w3 Hr Hrevoke. rewrite revokeDelegate_run in Hrevoke. simplify_eq.
    unfold createStreamOnBehalf. unfold bind at 1 2 3. unfold_prims. proj_simpl.
    rewrite lookup_insert_eq. reflexivity.
Qed.

(** C2. In every reachable world and for every stream id, what was pushed
    to the stream's sender plus what was pushed to its recipient plus the
    stream's [remaining] is its [deposit]; nothing was pushed for the
    stream to anyone else, and [deposit] is the amount pulled in when the
    stream was created. *)
Theorem deposit_conserved me w streamId :
  reachable me w ->
  let s := stream_at streamId w in
  paid streamId (sender s) (trace w) + paid streamId (recipient s) (trace w)
    + remaining s = deposit s /\
  paid_out streamId (trace w)
    = paid streamId (sender s) (trace w) + paid streamId (recipient s) (trace w) /\
  pulled streamId (trace w) = deposit s.
Proof.
  intros Hreach. destruct (reachable_ledger_ok _ _ Hreach) as [_ Hsum].
  destruct (Hsum streamId) as (Hs1 & Hs2 & Hs3). cbn zeta. split_and!; [lia|done..].
Qed.

(** C10. For an id that no [StreamCreated] event carries, in every
    reachable world and at every time, [withdrawableAmount] returns [0]
    and [getStreamBasicInfo] returns the zero record. *)
Theorem unassigned_id_reads_zero me w streamId env :
  reachable me w ->
  was_created streamId (events w) = false ->
  withdrawableAmount streamId env w = Ok (0, w) /\
  getStreamBasicInfo streamId env w = Ok ((0, 0, 0, 0, 0, false), w).
Proof.
  intros Hreach Hnew. destruct (reachable_ledger_ok _ _ Hreach) as [Hrec _].
  assert (stream_at streamId w = zeroStream) as Hzero.
  { unfold stream_at. destruct (streams w !! streamId) as [s|] eqn:Hs; [|done].
    destruct (Hrec _ _ Hs) as (_ & Hcr & _). congruence. }
  split.
  - apply withdrawableAmount_inactive. by rewrite Hzero.
  - unfold getStreamBasicInfo, bind. unfold_prims. by rewrite Hzero.
Qed.

(** ** The delegation registry *)

Lemma isAuthorizedDelegate_run g d f env w :
  isAuthorizedDelegate g d f env w = Ok (authorized g d f w, w).
Proof. reflexivity. Qed.

(** X1. [authorizeDelegate] returns exactly for a nonzero delegate.  When
    it returns, the caller's grant for that delegate and selector reads
    true, every other grant reads as before, and streams, id counter, token
    and trace are untouched. *)
Theorem authorizeDelegate_effect d f env w :
  ((exists w', authorizeDelegate d f env w = Ok (tt, w')) <-> d <> 0) /\
  (forall w', authorizeDelegate d f env w = Ok (tt, w') ->
     authorized (msg_sender env) d f w' = true /\
     (forall g' d' f', (g', d', f') <> (msg_sender env, d, f) ->
        authorized g' d' f' w' = authorized g' d' f' w) /\
     streams w' = streams w /\ _nextStreamId w' = _nextStreamId w /\
     port w' = port w /\ trace w' = trace w).
Proof.
  split; [split|].
  - intros [w' Hrun]. by apply authorizeDelegate_inv in Hrun as [? _].
  - intros Hd. unfold authorizeDelegate. run_forward. eauto.
  - intros w' Hrun. apply authorizeDelegate_inv in Hrun as [_ ->].
    unfold authorized. proj_simpl. split_and!; try done.
    + by rewrite lookup_insert_eq.
    + intros g' d' f' Hne. by rewrite lookup_insert_ne.
Qed.

(** X2. [revokeDelegate] always returns, also for a grant that was never
    made and for the zero delegate.  Afterwards the caller's grant reads
    false, every other grant reads as before, and nothing else changed. *)
Theorem revokeDelegate_effect d f env w :
  exists w', revokeDelegate d f env w = Ok (tt, w') /\
    authorized (msg_sender env) d f w' = false /\
    (forall g' d' f', (g', d', f') <> (msg_sender env, d, f) ->
       authorized g' d' f' w' = authorized g' d' f' w) /\
    streams w' = streams w /\ _nextStreamId w' = _nextStreamId w /\
    port w' = port w /\ trace w' = trace w.
Proof.
  eexists. split; [apply revokeDelegate_run|].
  unfold authorized. proj_simpl. split_and!; try done.
  - by rewrite lookup_insert_eq.
  - intros g' d' f' Hne. by rewrite lookup_insert_ne.
Qed.

(** Every call but the two registry calls leaves the grants alone, and
    every call only adds events. *)
Lemma dispatch_grants c env w w' :
  dispatch c env w = Ok (tt, w') ->
  (exists e, events w' = e :: events w) /\
  match c with
  | AuthorizeDelegate d f =>
      d <> 0 /\
      events w' = DelegateAuthorized (msg_sender env) d f :: events w /\
      _delegateAuthorizations w' =
        <[(msg_sender env, d, f) := true]> (_delegateAuthorizations w)
  | RevokeDelegate d f =>
      _delegateAuthorizations w' =
        <[(msg_sender env, d, f) := false]> (_delegateAuthorizations w)
  | _ => _delegateAuthorizations w' = _delegateAuthorizations w
  end.
Proof.
  intros Hrun. destruct c; simpl in Hrun;
    unfold createStream, createStreamOnBehalf, withdrawFromStream,
      withdrawFromStreamOnBehalf, cancelStream, cancelStreamOnBehalf in Hrun;
    inv_all.
  1, 2: match goal with E : _createStream _ _ _ _ _ _ _ _ = _ |- _ =>
      destruct (_createStream_inv _ _ _ _ _ _ _ _ _ _ E)
        as (p' & _ & _ & _ & _ & _ & _ & _ & _ & _ & -> & ->) end; eauto.
  1, 2: match goal with E : _withdrawFromStream _ _ _ _ _ = _ |- _ =>
      destruct (_withdrawFromStream_inv _ _ _ _ _ _ E)
        as (wd & p' & _ & _ & _ & _ & _ & _ & ->) end; eauto.
  1, 2: match goal with E : _cancelStream _ _ _ _ = _ |- _ =>
      destruct (_cancelStream_inv _ _ _ _ _ E) as (p' & _ & _ & _ & ->) end; eauto.
  - destruct (pauseStream_inv _ _ _ _ Hrun) as (wd & p' & _ & _ & _ & _ & ->). eauto.
  - destruct (resumeStream_inv _ _ _ _ Hrun) as (_ & _ & _ & _ & ->). eauto.
  - match goal with E : authorizeDelegate _ _ _ _ = _ |- _ =>
      apply authorizeDelegate_inv in E as [? ->] end. eauto.
  - rewrite revokeDelegate_run in Hrun. simplify_eq. eauto.
Qed.

(** X3. In every reachable world a grant that reads true was made by its
    delegator (a [DelegateAuthorized] event of that delegator carries it),
    and its delegate is not the zero address. *)
Theorem grants_come_from_delegator me w g d f :
  reachable me w ->
  authorized g d f w = true ->
  d <> 0 /\ In (DelegateAuthorized g d f) (events w).
Proof.
  intros Hreach. revert g d f.
  induction Hreach as [p|w env c w' _ IH _ Hrun|w p _ IH]; intros g d f.
  - unfold authorized, deployed. proj_simpl. by rewrite lookup_empty.
  - destruct (dispatch_grants _ _ _ _ Hrun) as [[e Hev] Hc].
    assert (Hkeep : authorized g d f w = true ->
                    d <> 0 /\ In (DelegateAuthorized g d f) (events w')).
    { intros Hold. destruct (IH _ _ _ Hold). rewrite Hev. split; [done|by right]. }
    unfold authorized in *.
    destruct c; try (rewrite Hc; exact Hkeep).
    + destruct Hc as (Hd & Hev' & ->).
      destruct (decide ((msg_sender env, delegate, functionSelector) = (g, d, f)))
        as [Heq|Hne].
      * simplify_eq. intros _. rewrite Hev'. split; [done|by left].
      * rewrite lookup_insert_ne by done. exact Hkeep.
    + rewrite Hc.
      destruct (decide ((msg_sender env, delegate, functionSelector) = (g, d, f)))
        as [Heq|Hne].
      * rewrite Heq, lookup_insert_eq. done.
      * rewrite lookup_insert_ne by done. exact Hkeep.
  - exact (IH g d f).
Qed.

(** ** Who may call what *)

(** X4. A call returns only for a caller the source allows: the recipient
    for a withdrawal, the sender or the recipient for a pause or a cancel,
    the sender for a resume, and for each delegated entry point a caller
    holding the principal's grant for that entry point's selector, named
    together with the stream's actual recipient or sender. *)
Theorem returned_call_was_permitted c env w w' :
  dispatch c env w = Ok (tt, w') -> permitted c env w.
Proof.
  intros Hrun. destruct c; simpl in Hrun; simpl; try done;
    unfold createStream, createStreamOnBehalf, withdrawFromStream,
      withdrawFromStreamOnBehalf, cancelStream, cancelStreamOnBehalf in Hrun;
    inv_all; unfold authorized; props.
  - done.
  - match goal with E : _withdrawFromStream _ _ _ _ _ = _ |- _ =>
      destruct (_withdrawFromStream_inv _ _ _ _ _ _ E)
        as (wd & p' & _ & Hr & _) end. done.
  - done.
  - match goal with E : _cancelStream _ _ _ _ = _ |- _ =>
      destruct (_cancelStream_inv _ _ _ _ _ E) as (p' & _ & Hr & _) end.
    destruct Hr; auto.
  - done.
  - destruct (pauseStream_inv _ _ _ _ Hrun) as (wd & p' & _ & Hr & _).
    destruct Hr; auto.
  - by destruct (resumeStream_inv _ _ _ _ Hrun) as (_ & Hr & _).
Qed.

(** X5. On a stream that is not active (paused, ended, cancelled or never
    created) the plain withdraw, cancel and pause revert with the
    not-active reason, and the only call naming the stream that can return
    at all is a resume by its sender while funds remain. *)
Theorem inactive_stream_accepts_only_resume i env w :
  isActive (stream_at i w) = false ->
  (forall amount, withdrawFromStream i amount env w = Err NotActive) /\
  cancelStream i env w = Err NotActive /\
  pauseStream i env w = Err NotActive /\
  (forall c w', call_stream c = Some i -> dispatch c env w = Ok (tt, w') ->
     c = ResumeStream i /\ msg_sender env = sender (stream_at i w) /\
     0 < remaining (stream_at i w)).
Proof.
  intros Hoff. split_and!.
  - intros amount. unfold withdrawFromStream, _withdrawFromStream. by run_forward.
  - unfold cancelStream, _cancelStream. by run_forward.
  - unfold pauseStream. by run_forward.
  - intros c w' Hc Hrun. destruct c; simpl in Hc; simplify_eq; simpl in Hrun;
      unfold withdrawFromStream, withdrawFromStreamOnBehalf, cancelStream,
        cancelStreamOnBehalf in Hrun; inv_all.
    1, 2: match goal with E : _withdrawFromStream _ _ _ _ _ = _ |- _ =>
        destruct (_withdrawFromStream_inv _ _ _ _ _ _ E)
          as (wd & p' & Hact & _) end; congruence.
    1, 2: match goal with E : _cancelStream _ _ _ _ = _ |- _ =>
        destruct (_cancelStream_inv _ _ _ _ _ E) as (p' & Hact & _) end; congruence.
    + destruct (pauseStream_inv _ _ _ _ Hrun) as (wd & p' & Hact & _). congruence.
    + destruct (resumeStream_inv _ _ _ _ Hrun) as (_ & Hs & Hpos & _). done.
Qed.

(** ** What a call does to the table *)

(** A returned call leaves the table alone, rewrites the one record it
    names, or adds a record under the next id. *)
Lemma dispatch_streams c env w w' :
  dispatch c env w = Ok (tt, w') ->
  (streams w' = streams w /\ _nextStreamId w' = _nextStreamId w) \/
  (exists i s',
     let s := stream_at i w in
     call_stream c = Some i /\ streams w !! i = Some s /\
     streams w' = <[i := s']> (streams w) /\
     _nextStreamId w' = _nextStreamId w /\
     sender s' = sender s /\ recipient s' = recipient s /\
     tokenAddress s' = tokenAddress s /\ deposit s' = deposit s /\
     ratePerSecond s' = ratePerSecond s /\ remaining s' <= remaining s) \/
  (exists s',
     streams w' = <[_nextStreamId w := s']> (streams w) /\
     _nextStreamId w' = _nextStreamId w + 1).
Proof.
  intros Hrun. destruct c; simpl in Hrun;
    unfold createStream, createStreamOnBehalf, withdrawFromStream,
      withdrawFromStreamOnBehalf, cancelStream, cancelStreamOnBehalf in Hrun;
    inv_all.
  1, 2: match goal with E : _createStream _ _ _ _ _ _ _ _ = _ |- _ =>
      destruct (_createStream_inv _ _ _ _ _ _ _ _ _ _ E)
        as (p' & _ & _ & _ & _ & _ & _ & _ & _ & _ & -> & ->) end;
    right; right; eauto.
  1, 2: match goal with E : _withdrawFromStream _ _ _ _ _ = _ |- _ =>
      destruct (_withdrawFromStream_inv _ _ _ _ _ _ E)
        as (wd & p' & Hact & _ & _ & _ & _ & _ & ->) end;
    right; left; eexists _, _; cbn zeta; simpl;
    (split; [done|]); (split; [apply stream_at_Some; auto|]);
    split_and!; try done; proj_simpl; lia.
  1, 2: match goal with E : _cancelStream _ _ _ _ = _ |- _ =>
      destruct (_cancelStream_inv _ _ _ _ _ E) as (p' & Hact & _ & _ & ->) end;
    right; left; eexists _, _; cbn zeta; simpl;
    (split; [done|]); (split; [apply stream_at_Some; auto|]);
    split_and!; try done; proj_simpl; lia.
  - destruct (pauseStream_inv _ _ _ _ Hrun) as (wd & p' & Hact & _ & _ & _ & ->).
    right; left; eexists _, _; cbn zeta; simpl.
    split; [done|]. split; [apply stream_at_Some; auto|].
    split_and!; try done. proj_simpl. lia.
  - destruct (resumeStream_inv _ _ _ _ Hrun) as (_ & _ & Hpos & _ & ->).
    right; left; eexists _, _; cbn zeta; simpl.
    split; [done|]. split; [apply stream_at_Some; auto|].
    split_and!; try done.
  - match goal with E : authorizeDelegate _ _ _ _ = _ |- _ =>
      apply authorizeDelegate_inv in E as [_ ->] end. by left.
  - rewrite revokeDelegate_run in Hrun. simplify_eq. by left.
Qed.

(** X6. Stream ids are handed out consecutively from 1: in every reachable
    world the counter is at least 1 and the records that exist are exactly
    those with an id from 1 up to the counter; id 0 is never used. *)
Theorem ids_are_consecutive me w :
  reachable me w ->
  1 <= _nextStreamId w /\
  forall i, is_Some (streams w !! i) <-> 1 <= i /\ i < _nextStreamId w.
Proof.
  induction 1 as [p|w env c w' _ [IH1 IH2] _ Hrun|w p _ IH].
  - unfold deployed. proj_simpl. split; [lia|]. intros i.
    rewrite lookup_empty. split; [by intros [? ?]|lia].
  - destruct (dispatch_streams _ _ _ _ Hrun)
      as [[-> ->]|[(i & s' & _ & Hi & -> & -> & _)|(s' & -> & ->)]].
    + done.
    + split; [done|]. intros j. rewrite <- IH2.
      destruct (decide (i = j)) as [->|Hne].
      * rewrite lookup_insert_eq, Hi. split; eauto.
      * by rewrite lookup_insert_ne.
    + split; [lia|]. intros j.
      destruct (decide (_nextStreamId w = j)) as [<-|Hne].
      * rewrite lookup_insert_eq. split; [lia|eauto].
      * rewrite lookup_insert_ne by done. rewrite IH2. lia.
  - exact IH.
Qed.

(** X7. No call ever changes who a stream is between or what it is worth:
    for a record that exists in a reachable world, [sender], [recipient],
    [tokenAddress], [deposit] and [ratePerSecond] are the same after any
    call that returns. *)
Theorem stream_identity_is_fixed me c env w w' i :
  reachable me w -> is_Some (streams w !! i) ->
  dispatch c env w = Ok (tt, w') ->
  let s := stream_at i w in
  let s' := stream_at i w' in
  sender s' = sender s /\ recipient s' = recipient s /\
  tokenAddress s' = tokenAddress s /\ deposit s' = deposit s /\
  ratePerSecond s' = ratePerSecond s.
Proof.
  intros Hreach Hi Hrun. cbn zeta. unfold stream_at.
  pose proof (ids_are_consecutive _ _ Hreach) as [_ Hids].
  destruct (dispatch_streams _ _ _ _ Hrun)
    as [[-> _]|[(j & s' & _ & Hj & -> & _ & ? & ? & ? & ? & ? & _)|(s' & -> & _)]].
  - done.
  - destruct (decide (j = i)) as [->|Hne].
    + rewrite lookup_insert_eq. by fold (stream_at i w).
    + by rewrite lookup_insert_ne.
  - apply Hids in Hi. by rewrite lookup_insert_ne by lia.
Qed.

(** X8. What a stream still holds never grows and never exceeds what was
    put in: across any call that returns, [remaining] of an existing
    record does not increase, and it is at most [deposit]. *)
Theorem remaining_only_decreases me c env w w' i :
  reachable me w -> is_Some (streams w !! i) ->
  dispatch c env w = Ok (tt, w') ->
  remaining (stream_at i w') <= remaining (stream_at i w) /\
  remaining (stream_at i w) <= deposit (stream_at i w).
Proof.
  intros Hreach Hi Hrun.
  pose proof (ids_are_consecutive _ _ Hreach) as [_ Hids].
  destruct (reachable_ledger_ok _ _ Hreach) as [_ Hsum].
  destruct (Hsum i) as (Hs & _). split; [|lia].
  unfold stream_at.
  destruct (dispatch_streams _ _ _ _ Hrun)
    as [[-> _]|[(j & s' & _ & Hj & -> & _ & _ & _ & _ & _ & _ & Hle)|(s' & -> & _)]].
  - done.
  - destruct (decide (j = i)) as [->|Hne].
    + rewrite lookup_insert_eq. by fold (stream_at i w).
    + by rewrite lookup_insert_ne.
  - apply Hids in Hi. by rewrite lookup_insert_ne by lia.
Qed.

(** ** Accrual *)

Lemma ltb_min (a b : N) : (if a <? b then a else b) = N.min a b.
Proof. destruct (a <? b) eqn:E; props; lia. Qed.

Lemma withdrawableAmount_inv i env w v w' :
  withdrawableAmount i env w = Ok (v, w') ->
  let s := stream_at i w in
  let now := block_timestamp env in
  (v = 0 /\ (isActive s = false \/ now < startTime s)) \/
  (isActive s = true /\ startTime s <= now /\
   (stopTime s <= now -> startTime s <= stopTime s) /\
   elapsed_at s now * ratePerSecond s <= MAX_UINT256 /\
   remaining s <= deposit s /\
   deposit s - remaining s <= vested_at s now /\
   v = vested_at s now - (deposit s - remaining s)).
Proof.
  unfold withdrawableAmount, vested_at, elapsed_at. intros Hrun. cbn zeta.
  inv_run; rewrite ?ltb_min in *; props; try (left; split; [done|]; auto; fail).
  all: right; repeat case_match; props; split_and!; try done; lia.
Qed.

Lemma withdrawableAmount_run i env w :
  let s := stream_at i w in
  let now := block_timestamp env in
  isActive s = true -> startTime s <= now ->
  (stopTime s <= now -> startTime s <= stopTime s) ->
  elapsed_at s now * ratePerSecond s <= MAX_UINT256 ->
  remaining s <= deposit s ->
  deposit s - remaining s <= vested_at s now ->
  withdrawableAmount i env w
    = Ok (vested_at s now - (deposit s - remaining s), w).
Proof.
  cbn zeta. unfold vested_at, elapsed_at. intros Hact Hstart Hwin Hmul Hrem Hsub.
  unfold withdrawableAmount. run_forward.
  destruct (stopTime (stream_at i w) <=? block_timestamp env) eqn:Hstop; props;
    run_forward; rewrite ?ltb_min; by run_forward.
Qed.

Lemma elapsed_at_mono s t1 t2 :
  t1 <= t2 -> startTime s <= t1 ->
  (stopTime s <= t2 -> startTime s <= stopTime s) ->
  elapsed_at s t1 <= elapsed_at s t2.
Proof. unfold elapsed_at. intros. repeat case_match; props; lia. Qed.

(** X9. For a fixed state the withdrawable amount never shrinks as time
    passes, and it stays the same from [stopTime] on: of two queries that
    return, the later one returns at least as much, and the same when the
    earlier one is already at or after the stop. *)
Theorem withdrawable_grows_with_time i env1 env2 w v1 v2 :
  block_timestamp env1 <= block_timestamp env2 ->
  withdrawableAmount i env1 w = Ok (v1, w) ->
  withdrawableAmount i env2 w = Ok (v2, w) ->
  v1 <= v2 /\ (stopTime (stream_at i w) <= block_timestamp env1 -> v1 = v2).
Proof.
  intros Ht H1 H2.
  apply withdrawableAmount_inv in H1. apply withdrawableAmount_inv in H2.
  cbn zeta in *.
  destruct H1 as [[-> H1]|(Ha1 & Hs1 & Hw1 & _ & _ & Hsub1 & ->)];
    destruct H2 as [[-> H2]|(Ha2 & Hs2 & Hw2 & _ & _ & Hsub2 & ->)].
  - split; [lia|done].
  - split; [lia|]. intros Hstop. destruct H1 as [H1|H1]; [congruence|lia].
  - destruct H2 as [H2|H2]; [congruence|lia].
  - pose proof (elapsed_at_mono (stream_at i w) _ _ Ht Hs1 Hw2) as He.
    pose proof (N.mul_le_mono_r _ _ (ratePerSecond (stream_at i w)) He) as Hm.
    unfold vested_at in *. split; [lia|].
    intros Hstop. unfold elapsed_at.
    replace (stopTime (stream_at i w) <=? block_timestamp env1) with true
      by (symmetry; solve_test).
    by replace (stopTime (stream_at i w) <=? block_timestamp env2) with true
      by (symmetry; solve_test).
Qed.

(** X10. [withdrawableAmount] changes nothing, never returns more than the
    stream still holds, and returns 0 for a stream that is not active or
    has not started. *)
Theorem withdrawable_within_remaining i env w v w' :
  withdrawableAmount i env w = Ok (v, w') ->
  let s := stream_at i w in
  w' = w /\ v <= remaining s /\
  (isActive s = false \/ block_timestamp env < startTime s -> v = 0).
Proof.
  intros Hrun. cbn zeta.
  pose proof (withdrawableAmount_view _ _ _ _ _ Hrun) as ->.
  split; [done|]. split; [by eapply withdrawableAmount_le_remaining|].
  apply withdrawableAmount_inv in Hrun. cbn zeta in Hrun.
  destruct Hrun as [[-> _]|(Ha & Hs & _)]; [done|].
  intros [Hoff|Hearly]; [congruence|lia].
Qed.

(** X11. A stream nobody has touched since its creation unlocks linearly:
    nothing before [startTime], then [ratePerSecond] per second up to
    [stopTime].  From [stopTime] on the query returns the deposit less the
    remainder of the division that fixed the rate; that remainder is never
    withdrawable. *)
Theorem untouched_stream_accrual sender_ recipient_ deposit_ tokenAddress_
    startTime_ stopTime_ env w i w' envq :
  deposit_ <= MAX_UINT256 ->
  _createStream sender_ recipient_ deposit_ tokenAddress_ startTime_ stopTime_ env w
    = Ok (i, w') ->
  let now := block_timestamp envq in
  let rate := deposit_ / (stopTime_ - startTime_) in
  withdrawableAmount i envq w'
    = Ok (if now <? startTime_ then 0
          else (N.min now stopTime_ - startTime_) * rate, w') /\
  (stopTime_ <= now ->
   withdrawableAmount i envq w'
     = Ok (deposit_ - deposit_ mod (stopTime_ - startTime_), w')).
Proof.
  intros Hmax Hrun.
  destruct (_createStream_inv _ _ _ _ _ _ _ _ _ _ Hrun)
    as (p' & _ & _ & _ & Hd & _ & Hwin & Hrate & _ & _ & -> & ->).
  cbn zeta.
  set (w' := mkWorld _ _ _ _ _ _).
  assert (Hs : stream_at (_nextStreamId w) w' =
               mkStream sender_ recipient_ tokenAddress_ startTime_ stopTime_ deposit_
                 (deposit_ / (stopTime_ - startTime_)) deposit_ true).
  { unfold w'. by normalise. }
  pose proof (N.Div0.mul_div_le deposit_ (stopTime_ - startTime_)) as Hfloor.
  assert (Hearn : forall t, startTime_ <= t ->
            (N.min t stopTime_ - startTime_) * (deposit_ / (stopTime_ - startTime_))
              <= deposit_).
  { intros t Ht.
    pose proof (N.mul_le_mono_r (N.min t stopTime_ - startTime_)
                  (stopTime_ - startTime_) (deposit_ / (stopTime_ - startTime_))
                  ltac:(lia)). lia. }
  assert (Hquery : withdrawableAmount (_nextStreamId w) envq w'
            = Ok (if block_timestamp envq <? startTime_ then 0
                  else (N.min (block_timestamp envq) stopTime_ - startTime_)
                       * (deposit_ / (stopTime_ - startTime_)), w')).
  { destruct (block_timestamp envq <? startTime_) eqn:Hearly; props.
    - unfold withdrawableAmount. run_forward. rewrite Hs. by run_forward.
    - pose proof (Hearn _ Hearly) as Hle.
      assert (elapsed_at (stream_at (_nextStreamId w) w') (block_timestamp envq)
              = N.min (block_timestamp envq) stopTime_ - startTime_) as Hel.
      { rewrite Hs. unfold elapsed_at. proj_simpl. case_match; props; lia. }
      rewrite withdrawableAmount_run; cbn zeta; unfold vested_at;
        rewrite ?Hel, Hs; proj_simpl; try done;
        rewrite ?N.sub_diag, ?N.sub_0_r, ?N.min_r by done; try done;
        first [apply N.le_0_l | lia]. }
  split; [exact Hquery|].
  intros Hstop. rewrite Hquery.
  replace (block_timestamp envq <? startTime_) with false by (symmetry; solve_test).
  rewrite N.min_r by lia. f_equal. f_equal.
  pose proof (N.div_mod' deposit_ (stopTime_ - startTime_)) as Hdm.
  set (q := (stopTime_ - startTime_) * (deposit_ / (stopTime_ - startTime_))) in *.
  set (r := deposit_ mod (stopTime_ - startTime_)) in *. lia.
Qed.

(** X12. After the recipient has withdrawn everything available
    ([amount = 0]), a second withdrawal in the same block gets nothing,
    whatever amount it asks for: it reverts with the nothing-to-withdraw
    reason if the stream is still active and with the not-active reason if
    the first withdrawal ended it. *)
Theorem second_withdrawal_reverts i amount env w w1 :
  withdrawFromStream i 0 env w = Ok (tt, w1) ->
  withdrawFromStream i amount env w1
    = Err (if isActive (stream_at i w1) then NothingToWithdraw else NotActive).
Proof.
  intros Hrun. unfold withdrawFromStream, bind at 1, sender_of in Hrun.
  cbv beta iota in Hrun.
  destruct (_withdrawFromStream_inv _ _ _ _ _ _ Hrun)
    as (wd & p' & Hact & Hrec & Hwd & Hpos & _ & _ & Hw1).
  cbn zeta in Hw1. change (0 =? 0) with true in *. cbn iota in *.
  set (s := stream_at i w) in *.
  assert (Hs1 : stream_at i w1 =
    set_isActive (negb ((stopTime s <=? block_timestamp env) || (remaining s - wd =? 0)))
      (set_remaining (remaining s - wd) s)).
  { rewrite Hw1. by normalise. }
  destruct (isActive (stream_at i w1)) eqn:Hact1.
  - pose proof (withdrawableAmount_le_remaining _ _ _ _ _ Hwd) as Hbound.
    fold s in Hbound.
    apply withdrawableAmount_inv in Hwd. cbn zeta in Hwd. fold s in Hwd.
    destruct Hwd as [[-> _]|(_ & Hst & Hwin & Hmul & Hrem & Hsub & Hv)]; [lia|].
    assert (Hel : forall t, elapsed_at (stream_at i w1) t = elapsed_at s t).
    { intros t. by rewrite Hs1. }
    assert (Hve : forall t, vested_at (stream_at i w1) t = vested_at s t).
    { intros t. unfold vested_at. by rewrite Hel, Hs1. }
    assert (Hq : withdrawableAmount i env w1 = Ok (0, w1)).
    { rewrite withdrawableAmount_run; cbn zeta; rewrite ?Hve, ?Hel; try done;
        rewrite ?Hs1; proj_simpl; try done; try lia.
      f_equal. f_equal. lia. }
    unfold withdrawFromStream, bind at 1, sender_of.
    replace (msg_sender env) with (recipient (stream_at i w1))
      by (rewrite Hs1; proj_simpl; done).
    by apply _withdrawFromStream_nothing.
  - unfold withdrawFromStream, _withdrawFromStream. by run_forward.
Qed.

(** ** Cancel, pause and resume *)

Lemma _cancelStream_run i caller env w p' :
  let s := stream_at i w in
  isActive s = true -> sender s = caller \/ recipient s = caller ->
  push_if (port w) (tokenAddress s) (this env) (sender s) (remaining s) = Some p' ->
  _cancelStream i caller env w =
    Ok (tt, mkWorld
      (<[i := set_remaining 0 (set_isActive false s)]> (streams w))
      (_delegateAuthorizations w) (_nextStreamId w) p'
      (pushed_if i (tokenAddress s) (sender s) (remaining s) ++ trace w)
      (StreamCancelled i (sender s) (recipient s) (remaining s) 0 :: events w)).
Proof.
  cbn zeta. unfold push_if, pushed_if. intros Hact Hrole Hpush.
  unfold _cancelStream. destruct Hrole as [Hrole|Hrole]; run_forward.
  all: match goal with |- context [if ?c then withdrawableAmount _ else _] =>
         destruct c end.
  all: rewrite ?withdrawableAmount_inactive by by normalise.
  all: cbv beta iota; normalise; repeat (decide_test; normalise).
  all: rewrite ?N.sub_0_r in *.
  all: destruct (0 <? remaining (stream_at i w)); normalise; rewrite ?Hpush;
    normalise; by simplify_eq.
Qed.

(** X13. [cancelStream] returns exactly when the stream is active, the
    caller is its sender or its recipient, and the token accepts the
    refund.  It then pushes the whole [remaining] to the sender (no call
    when that is zero) and nothing to the recipient, sets [remaining] to 0
    and deactivates the stream; it does not depend on the time. *)
Theorem cancelStream_effect i env w :
  let s := stream_at i w in
  ((exists w', cancelStream i env w = Ok (tt, w')) <->
   isActive s = true /\
   (msg_sender env = sender s \/ msg_sender env = recipient s) /\
   is_Some (push_if (port w) (tokenAddress s) (this env) (sender s) (remaining s))) /\
  (forall w', cancelStream i env w = Ok (tt, w') ->
     trace w' = pushed_if i (tokenAddress s) (sender s) (remaining s) ++ trace w /\
     remaining (stream_at i w') = 0 /\ isActive (stream_at i w') = false).
Proof.
  cbn zeta. unfold cancelStream, bind at 1, sender_of. cbv beta iota.
  split; [split|].
  - intros [w' Hrun].
    destruct (_cancelStream_inv _ _ _ _ _ Hrun) as (p' & Hact & Hrole & Hpush & _).
    rewrite Hpush. split; [done|]. split; [destruct Hrole; auto|eauto].
  - intros (Hact & Hrole & [p' Hpush]).
    eexists. apply _cancelStream_run; [done| |exact Hpush]. destruct Hrole; auto.
  - intros w' Hrun.
    destruct (_cancelStream_inv _ _ _ _ _ Hrun) as (p' & _ & _ & _ & ->).
    by normalise.
Qed.

(** X14. [resumeStream] reverts with the already-active reason on an
    active stream, with the only-sender reason for any caller but the
    stored sender (the recipient included, and anyone on an id that was
    never created), and with the no-funds reason when nothing remains.  It
    returns exactly when the stream is inactive, the caller is the sender,
    funds remain and [now + stopTime] fits in 256 bits. *)
Theorem resumeStream_cases i env w :
  let s := stream_at i w in
  (isActive s = true -> resumeStream i env w = Err AlreadyActive) /\
  (isActive s = false -> msg_sender env <> sender s ->
   resumeStream i env w = Err OnlySenderResumes) /\
  (isActive s = false -> msg_sender env = sender s -> remaining s = 0 ->
   resumeStream i env w = Err NoFundsLeft) /\
  ((exists w', resumeStream i env w = Ok (tt, w')) <->
   isActive s = false /\ msg_sender env = sender s /\ 0 < remaining s /\
   block_timestamp env + stopTime s <= MAX_UINT256).
Proof.
  cbn zeta. split_and!; [| | |split].
  - intros Hact. unfold resumeStream. by run_forward.
  - intros Hoff Hne. unfold resumeStream. by run_forward.
  - intros Hoff Heq Hzero. unfold resumeStream. by run_forward.
  - intros [w' Hrun]. by destruct (resumeStream_inv _ _ _ _ Hrun) as (? & ? & ? & ? & _).
  - intros (Hoff & Heq & Hpos & Hfit). unfold resumeStream. run_forward. eauto.
Qed.

(** X15. Pausing and later resuming keeps the time that was left: after a
    pause at [t1] and a resume at [t2], the stream starts at [t2] and its
    window [stopTime - startTime] is what was left of the old window at
    [t1] (zero if the pause came at or after the stop).  Rate, parties and
    deposit are unchanged, and [remaining] has dropped by exactly the
    amount the pause pushed to the recipient. *)
Theorem pause_then_resume i env1 env2 w w1 w2 :
  pauseStream i env1 w = Ok (tt, w1) ->
  resumeStream i env2 w1 = Ok (tt, w2) ->
  let s := stream_at i w in
  let s2 := stream_at i w2 in
  isActive s2 = true /\
  startTime s2 = block_timestamp env2 /\
  stopTime s2 - startTime s2 = stopTime s - block_timestamp env1 /\
  ratePerSecond s2 = ratePerSecond s /\ deposit s2 = deposit s /\
  sender s2 = sender s /\ recipient s2 = recipient s /\
  exists wd,
    withdrawableAmount i env1 w = Ok (wd, w) /\
    remaining s2 + wd = remaining s /\
    trace w2 = pushed_if i (tokenAddress s) (recipient s) wd ++ trace w.
Proof.
  intros Hpause Hresume.
  destruct (pauseStream_inv _ _ _ _ Hpause) as (wd & p' & _ & _ & Hwd & _ & ->).
  pose proof (withdrawableAmount_le_remaining _ _ _ _ _ Hwd) as Hbound.
  destruct (resumeStream_inv _ _ _ _ Hresume) as (_ & _ & _ & _ & ->).
  cbn zeta. normalise. split_and!; try done.
  - case_match; props; lia.
  - exists wd. split_and!; [done|lia|done].
Qed.

(** X16. While a stream is paused its [stopTime] field holds the seconds
    that were left, not a timestamp: [getStreamTimeInfo] after a pause at
    [t1] returns the old start, [stopTime - t1] (0 if [t1] is at or after
    the stop), the rate, and a withdrawable amount of 0, at whatever time
    it is asked. *)
Theorem paused_stream_time_info i env1 w w1 envq :
  pauseStream i env1 w = Ok (tt, w1) ->
  let s := stream_at i w in
  getStreamTimeInfo i envq w1
    = Ok ((startTime s, stopTime s - block_timestamp env1, ratePerSecond s, 0), w1).
Proof.
  intros Hpause.
  destruct (pauseStream_inv _ _ _ _ Hpause) as (wd & p' & _ & _ & _ & _ & ->).
  cbn zeta. unfold getStreamTimeInfo. unfold bind at 1. unfold_prims.
  unfold bind at 1. rewrite withdrawableAmount_inactive by by normalise.
  unfold_prims. normalise. repeat f_equal.
  case_match; props; lia.
Qed.

(** X24. A withdrawal made at or after [stopTime] ends the stream whatever
    is left in it, also when only part of the withdrawable amount was
    asked for; before [stopTime] the stream stays active unless the
    withdrawal emptied it. *)
Theorem withdrawal_ends_stream_at_stop c env w w' i :
  is_withdrawal c = true -> call_stream c = Some i ->
  dispatch c env w = Ok (tt, w') ->
  isActive (stream_at i w')
    = negb ((stopTime (stream_at i w) <=? block_timestamp env)
            || (remaining (stream_at i w') =? 0)).
Proof.
  intros Hc Hi Hrun.
  destruct c; try discriminate Hc; simpl in Hi; simplify_eq; simpl in Hrun;
    unfold withdrawFromStream, withdrawFromStreamOnBehalf in Hrun; inv_all;
    match goal with E : _withdrawFromStream _ _ _ _ _ = _ |- _ =>
      destruct (_withdrawFromStream_inv _ _ _ _ _ _ E)
        as (wd & p' & _ & _ & _ & _ & _ & _ & ->) end;
    by normalise.
Qed.

Lemma pauseStream_run i env w wd p' :
  let s := stream_at i w in
  isActive s = true ->
  msg_sender env = sender s \/ msg_sender env = recipient s ->
  withdrawableAmount i env w = Ok (wd, w) ->
  push_if (port w) (tokenAddress s) (this env) (recipient s) wd = Some p' ->
  exists w', pauseStream i env w = Ok (tt, w').
Proof.
  cbn zeta. unfold push_if. intros Hact Hrole Hwd Hpush.
  pose proof (withdrawableAmount_le_remaining _ _ _ _ _ Hwd) as Hbound.
  unfold pauseStream. destruct Hrole as [Hrole|Hrole]; run_forward.
  all: rewrite Hwd; cbv beta iota; normalise; repeat (decide_test; normalise).
  all: destruct (block_timestamp env <? stopTime (stream_at i w)) eqn:Hstop; props;
    normalise; repeat (decide_test; normalise).
  all: destruct (0 <? wd); normalise; rewrite ?Hpush; normalise; eauto.
Qed.

(** X25. [pauseStream] returns exactly when the stream is active, the
    caller is its sender or its recipient, the accrual query returns, and
    the token accepts the push of the accrued amount to the recipient (no
    call when it is zero).  It then leaves the stream inactive with that
    amount taken off [remaining]. *)
Theorem pauseStream_cases i env w :
  let s := stream_at i w in
  ((exists w', pauseStream i env w = Ok (tt, w')) <->
   isActive s = true /\
   (msg_sender env = sender s \/ msg_sender env = recipient s) /\
   exists wd, withdrawableAmount i env w = Ok (wd, w) /\
     is_Some (push_if (port w) (tokenAddress s) (this env) (recipient s) wd)) /\
  (forall w' wd, pauseStream i env w = Ok (tt, w') ->
     withdrawableAmount i env w = Ok (wd, w) ->
     isActive (stream_at i w') = false /\
     remaining (stream_at i w') + wd = remaining s /\
     trace w' = pushed_if i (tokenAddress s) (recipient s) wd ++ trace w).
Proof.
  cbn zeta. split; [split|].
  - intros [w' Hrun].
    destruct (pauseStream_inv _ _ _ _ Hrun) as (wd & p' & Hact & Hrole & Hwd & Hpush & _).
    split; [done|]. split; [destruct Hrole; auto|].
    exists wd. rewrite Hpush. eauto.
  - intros (Hact & Hrole & wd & Hwd & [p' Hpush]).
    by eapply pauseStream_run.
  - intros w' wd Hrun Hwd.
    destruct (pauseStream_inv _ _ _ _ Hrun) as (wd' & p' & _ & _ & Hwd' & _ & ->).
    pose proof (withdrawableAmount_le_remaining _ _ _ _ _ Hwd) as Hbound.
    assert (wd' = wd) as -> by congruence.
    normalise. split_and!; [done|lia|done].
Qed.

(** ** Delegated calls *)

Lemma caller_free_bind {A B} (m : M P A) (k : A -> M P B) :
  caller_free m -> (forall a, caller_free (k a)) -> caller_free (bind m k).
Proof.
  intros Hm Hk who env w. unfold bind. rewrite Hm.
  destruct (m env w) as [[a w1]|]; [apply Hk|done].
Qed.

Ltac caller_free_tac :=
  repeat first
    [ apply caller_free_bind; [|intro]
    | match goal with |- caller_free (if ?c then _ else _) => destruct c end
    | match goal with |- caller_free (match ?c with _ => _ end) => destruct c end
    | by (intros ? ? ?; unfold_prims;
          cbn [called_by block_timestamp this]; repeat case_match) ].

Lemma withdrawableAmount_caller_free i : @caller_free P _ (withdrawableAmount i).
Proof. unfold withdrawableAmount. caller_free_tac. Qed.

(** The internal functions read the time and the contract's address from
    the transaction, never the caller. *)
Lemma internal_calls_ignore_caller :
  (forall i r amount, @caller_free P _ (_withdrawFromStream i r amount)) /\
  (forall i caller, @caller_free P _ (_cancelStream i caller)) /\
  (forall from to d t a b, @caller_free P _ (_createStream from to d t a b)).
Proof.
  split_and!; intros.
  - unfold _withdrawFromStream.
    repeat first [apply withdrawableAmount_caller_free | progress caller_free_tac].
  - unfold _cancelStream.
    repeat first [apply withdrawableAmount_caller_free | progress caller_free_tac].
  - unfold _createStream. caller_free_tac.
Qed.

(** X17. [withdrawFromStreamOnBehalf] reverts with the mismatch reason
    unless the named recipient is the stream's recipient, and with the
    not-authorized reason unless that recipient granted the caller the
    selector of this function.  With the grant it does exactly what the
    recipient's own [withdrawFromStream] would do in the same block: the
    tokens go to the recipient, not to the delegate. *)
Theorem withdrawFromStreamOnBehalf_cases i r amount env w :
  let s := stream_at i w in
  (recipient s <> r ->
   withdrawFromStreamOnBehalf i r amount env w = Err RecipientMismatch) /\
  (recipient s = r ->
   authorized r (msg_sender env) withdrawFromStreamOnBehalf_selector w = false ->
   withdrawFromStreamOnBehalf i r amount env w = Err Unauthorized_withdraw) /\
  (recipient s = r ->
   authorized r (msg_sender env) withdrawFromStreamOnBehalf_selector w = true ->
   withdrawFromStreamOnBehalf i r amount env w
     = withdrawFromStream i amount (called_by r env) w).
Proof.
  cbn zeta. unfold authorized. split_and!.
  - intros Hne. unfold withdrawFromStreamOnBehalf. by run_forward.
  - intros Heq Hno. unfold withdrawFromStreamOnBehalf. unfold bind at 1 2 3 4.
    unfold_prims. replace (recipient (stream_at i w) =? r) with true
      by (symmetry; solve_test).
    cbv beta iota. by rewrite Hno.
  - intros Heq Hyes. unfold withdrawFromStreamOnBehalf, withdrawFromStream.
    unfold bind at 1 2 3 4 5. unfold_prims.
    replace (recipient (stream_at i w) =? r) with true by (symmetry; solve_test).
    cbv beta iota. rewrite Hyes. cbn [msg_sender called_by].
    symmetry. apply internal_calls_ignore_caller.
Qed.

(** X18. [cancelStreamOnBehalf] reverts with the mismatch reason unless
    the named sender is the stream's sender (so the recipient cannot
    delegate a cancel), and with the not-authorized reason unless that
    sender granted the caller the selector of this function.  With the
    grant it does exactly what the sender's own [cancelStream] would do. *)
Theorem cancelStreamOnBehalf_cases i sender_ env w :
  let s := stream_at i w in
  (sender s <> sender_ ->
   cancelStreamOnBehalf i sender_ env w = Err SenderMismatch) /\
  (sender s = sender_ ->
   authorized sender_ (msg_sender env) cancelStreamOnBehalf_selector w = false ->
   cancelStreamOnBehalf i sender_ env w = Err Unauthorized_cancel) /\
  (sender s = sender_ ->
   authorized sender_ (msg_sender env) cancelStreamOnBehalf_selector w = true ->
   cancelStreamOnBehalf i sender_ env w = cancelStream i (called_by sender_ env) w).
Proof.
  cbn zeta. unfold authorized. split_and!.
  - intros Hne. unfold cancelStreamOnBehalf. by run_forward.
  - intros Heq Hno. unfold cancelStreamOnBehalf. unfold bind at 1 2 3 4.
    unfold_prims. replace (sender (stream_at i w) =? sender_) with true
      by (symmetry; solve_test).
    cbv beta iota. by rewrite Hno.
  - intros Heq Hyes. unfold cancelStreamOnBehalf, cancelStream.
    unfold bind at 1 2 3 4 5. unfold_prims.
    replace (sender (stream_at i w) =? sender_) with true by (symmetry; solve_test).
    cbv beta iota. rewrite Hyes. cbn [msg_sender called_by].
    symmetry. apply internal_calls_ignore_caller.
Qed.

(** X19. With the sender's grant, [createStreamOnBehalf] does exactly what
    the sender's own [createStream] would do in the same block: the
    deposit is pulled from the sender, who is recorded as the stream's
    sender; the delegate appears nowhere in the record. *)
Theorem createStreamOnBehalf_as_sender sender_ recipient_ deposit_ tokenAddress_
    startTime_ stopTime_ env w :
  authorized sender_ (msg_sender env) createStreamOnBehalf_selector w = true ->
  createStreamOnBehalf sender_ recipient_ deposit_ tokenAddress_ startTime_ stopTime_
    env w
  = createStream recipient_ deposit_ tokenAddress_ startTime_ stopTime_
      (called_by sender_ env) w.
Proof.
  unfold authorized. intros Hyes. unfold createStreamOnBehalf, createStream.
  unfold bind at 1 2 3 4. unfold_prims. rewrite Hyes. cbn [msg_sender called_by].
  symmetry. apply internal_calls_ignore_caller.
Qed.

End Proofs.

(** ** The token contract *)

Section Token.
Import StreamToken.

Lemma MAX_SUPPLY_fits : MAX_SUPPLY <= MAX_UINT256.
Proof. by vm_compute. Qed.

Ltac token_cases :=
  repeat match goal with
  | E : context [if ?c then _ else _] |- _ => destruct c eqn:?; try discriminate E
  | E : Done _ = Done _ |- _ => injection E as <-
  end; props.

Lemma _mint_inv account value st st' :
  _mint account value st = Done st' ->
  account <> 0 /\
  st' = mkState (<[account := balanceOf st account + value]> (_balances st))
          (_totalSupply st + value) (_minters st) (_owner st)
          (Transfer 0 account value :: log st).
Proof. unfold _mint. intros Hrun. by token_cases. Qed.

Lemma _mint_run account value st :
  account <> 0 -> _totalSupply st + value <= MAX_SUPPLY ->
  _mint account value st =
    Done (mkState (<[account := balanceOf st account + value]> (_balances st))
            (_totalSupply st + value) (_minters st) (_owner st)
            (Transfer 0 account value :: log st)).
Proof.
  intros Hne Hcap. pose proof MAX_SUPPLY_fits. unfold _mint.
  replace (account =? 0) with false by (symmetry; solve_test).
  by replace (_totalSupply st + value <=? MAX_UINT256) with true
    by (symmetry; solve_test).
Qed.

(** X20. [mint] returns exactly when the caller is a minter (listed, or
    the owner), the receiver is not the zero address, and the supply after
    minting stays within [MAX_SUPPLY].  It then raises the supply and the
    receiver's balance by the amount and leaves every other balance, the
    minters and the owner as they were. *)
Theorem mint_cases who to amount st :
  ((exists st', mint who to amount st = Done st') <->
   isMinter who st = true /\ to <> 0 /\ totalSupply st + amount <= MAX_SUPPLY) /\
  (forall st', mint who to amount st = Done st' ->
     totalSupply st' = totalSupply st + amount /\
     balanceOf st' to = balanceOf st to + amount /\
     (forall a, a <> to -> balanceOf st' a = balanceOf st a) /\
     _minters st' = _minters st /\ owner st' = owner st).
Proof.
  pose proof MAX_SUPPLY_fits as Hfits. split; [split|].
  - intros [st' Hrun]. unfold mint in Hrun. token_cases. done.
  - intros (Hm & Hto & Hcap). unfold mint, totalSupply in *. rewrite Hm. cbn [negb].
    replace (to =? 0) with false by (symmetry; solve_test).
    replace (_totalSupply st + amount <=? MAX_UINT256) with true
      by (symmetry; solve_test).
    replace (_totalSupply st + amount <=? MAX_SUPPLY) with true
      by (symmetry; solve_test).
    cbn [negb]. rewrite _mint_run by done. eauto.
  - intros st' Hrun. unfold mint in Hrun. token_cases.
    apply _mint_inv in Hrun as [_ ->]. unfold totalSupply, balanceOf, owner. cbn.
    split_and!; try done.
    + by rewrite lookup_insert_eq.
    + intros a Hne. by rewrite lookup_insert_ne.
Qed.

(** X21. [faucet] is open to every caller: it returns exactly when the
    caller is not the zero address, the amount is at most 1000 tokens
    (1000 * 10^18 units) and the supply after minting stays within
    [MAX_SUPPLY]; it then credits the caller and raises the supply by the
    amount.  The limit is per call: nothing is recorded about earlier
    claims. *)
Theorem faucet_cases who amount st :
  ((exists st', faucet who amount st = Done st') <->
   who <> 0 /\ amount <= 1000 * 10 ^ 18 /\ totalSupply st + amount <= MAX_SUPPLY) /\
  (forall st', faucet who amount st = Done st' ->
     totalSupply st' = totalSupply st + amount /\
     balanceOf st' who = balanceOf st who + amount /\
     (forall a, a <> who -> balanceOf st' a = balanceOf st a) /\
     _minters st' = _minters st /\ owner st' = owner st).
Proof.
  pose proof MAX_SUPPLY_fits as Hfits. split; [split|].
  - intros [st' Hrun]. unfold faucet in Hrun. token_cases.
    apply _mint_inv in Hrun as [? _]. done.
  - intros (Hwho & Hlim & Hcap). unfold faucet, totalSupply in *.
    replace (amount <=? 1000 * 10 ^ 18) with true by (symmetry; solve_test).
    replace (_totalSupply st + amount <=? MAX_UINT256) with true
      by (symmetry; solve_test).
    replace (_totalSupply st + amount <=? MAX_SUPPLY) with true
      by (symmetry; solve_test).
    cbn [negb]. rewrite _mint_run by done. eauto.
  - intros st' Hrun. unfold faucet in Hrun. token_cases.
    apply _mint_inv in Hrun as [_ ->]. unfold totalSupply, balanceOf, owner. cbn.
    split_and!; try done.
    + by rewrite lookup_insert_eq.
    + intros a Hne. by rewrite lookup_insert_ne.
Qed.

(** X22. The minter list belongs to the owner, and the owner cannot lose
    the right to mint: [addMinter] and [removeMinter] revert for every
    caller but the owner, [addMinter] refuses the zero address, an added
    account is a minter, a removed account stops being one unless it is
    the owner, and no other account's status changes. *)
Theorem minter_list_cases who account st :
  isMinter (owner st) st = true /\
  (who <> owner st ->
   addMinter who account st = Fail (OwnableUnauthorizedAccount who) /\
   removeMinter who account st = Fail (OwnableUnauthorizedAccount who)) /\
  (who = owner st ->
   ((exists st', addMinter who account st = Done st') <-> account <> 0) /\
   exists st', removeMinter who account st = Done st') /\
  (forall st', addMinter who account st = Done st' ->
     isMinter account st' = true /\
     forall b, b <> account -> isMinter b st' = isMinter b st) /\
  (forall st', removeMinter who account st = Done st' ->
     isMinter account st' = (account =? owner st) /\
     forall b, b <> account -> isMinter b st' = isMinter b st).
Proof.
  split_and!.
  - unfold isMinter. rewrite N.eqb_refl. apply orb_true_r.
  - intros Hne. unfold addMinter, removeMinter.
    by replace (who =? owner st) with false by (symmetry; solve_test).
  - intros ->. unfold addMinter, removeMinter. rewrite N.eqb_refl. cbn [negb].
    split; [|eauto]. split.
    + intros [st' Hrun]. by token_cases.
    + intros Hne. replace (account =? 0) with false by (symmetry; solve_test). eauto.
  - intros st' Hrun. unfold addMinter in Hrun. token_cases.
    unfold isMinter, owner. cbn. split.
    + by rewrite lookup_insert_eq.
    + intros b Hb. by rewrite lookup_insert_ne.
  - intros st' Hrun. unfold removeMinter in Hrun. token_cases.
    unfold isMinter, owner. cbn. split.
    + by rewrite lookup_insert_eq.
    + intros b Hb. by rewrite lookup_insert_ne.
Qed.


End Token.

Lemma w_resumed_reachable : reachable pay w_resumed.
Proof. repeat (apply reachable_run; [|reflexivity]). apply reach_deployed. Qed.

Lemma w_swept_reachable : reachable pay w_swept.
Proof. repeat (apply reachable_run; [|reflexivity]). apply reach_deployed. Qed.

Lemma w_ended_reachable : reachable pay w_ended.
Proof. repeat (apply reachable_run; [|reflexivity]). apply reach_deployed. Qed.

(** *** Where the code departs from the specification *)

(** C1 (code defect). Forty seconds into stream 1 the recipient can
    withdraw 400, yet cancelling at that moment pushes the whole 1000 to
    the sender and nothing to the recipient: [_cancelStream] clears
    [isActive] before it asks [withdrawableAmount], which answers 0 for a
    stream that is not active. *)
Theorem cancel_midway_pays_recipient_nothing :
  value_of (withdrawableAmount 1 (at_ alice (T0 + 40)) w_open) = Ok 400 /\
  remaining (stream_at 1 w_open) = 1000 /\
  exists w',
    dispatch (CancelStream 1) (at_ alice (T0 + 40)) w_open = Ok (tt, w') /\
    trace w' = [Push 1 tok alice 1000; Pull 1 tok alice 1000] /\
    paid 1 bob (trace w') = 0 /\ paid 1 alice (trace w') = 1000 /\
    remaining (stream_at 1 w') = 0 /\ isActive (stream_at 1 w') = false.
Proof.
  split; [reflexivity|]. split; [reflexivity|].
  exists (run (at_ alice (T0 + 40)) (CancelStream 1) w_open).
  split_and!; vm_compute; reflexivity.
Qed.

(** C3 (code defect). Stream 1 of [w_dust] is ended by a withdrawal at its
    stop time with 3 units left.  [resumeStream] only asks for an inactive
    stream with funds, so the sender brings the ended stream back and then
    moves the 3 units out by cancelling. *)
Theorem ended_stream_is_revived :
  reachable pay w_ended /\
  isActive (stream_at 1 w_ended) = false /\
  remaining (stream_at 1 w_ended) = 3 /\
  dispatch (ResumeStream 1) (at_ alice (T0 + 101)) w_ended = Ok (tt, w_revived) /\
  isActive (stream_at 1 w_revived) = true /\
  dispatch (CancelStream 1) (at_ alice (T0 + 102)) w_revived = Ok (tt, w_swept) /\
  trace w_swept = Push 1 tok alice 3 :: trace w_ended.
Proof.
  split; [apply w_ended_reachable|].
  split_and!; vm_compute; reflexivity.
Qed.

(** C4 (code defect). Stream 1 is paused 40 seconds in, when 400 is
    withdrawable, and resumed in the same second.  The rate is kept, but
    [withdrawableAmount] at that second does not return: [resumeStream]
    restarts the clock while the 400 already paid stay counted as
    disbursed, and the subtraction underflows. *)
Theorem pause_resume_query_reverts :
  value_of (withdrawableAmount 1 (at_ bob (T0 + 40)) w_open) = Ok 400 /\
  dispatch (PauseStream 1) (at_ bob (T0 + 40)) w_open = Ok (tt, w_paused) /\
  value_of (withdrawableAmount 1 (at_ bob (T0 + 40)) w_paused) = Ok 0 /\
  dispatch (ResumeStream 1) (at_ alice (T0 + 40)) w_paused = Ok (tt, w_resumed) /\
  ratePerSecond (stream_at 1 w_resumed) = ratePerSecond (stream_at 1 w_open) /\
  value_of (withdrawableAmount 1 (at_ bob (T0 + 40)) w_resumed)
    = Err (Panic ARITHMETIC).
Proof. split_and!; vm_compute; reflexivity. Qed.

(** C5 (code defect). [w_resumed] is reachable, and in it the amount
    disbursed (400) exceeds the amount vested since the resume for 40
    seconds: every query in that time aborts on the underflow, and so does
    [getStreamTimeInfo]. *)
Theorem withdrawable_underflows_in_reachable_world :
  reachable pay w_resumed /\
  deposit (stream_at 1 w_resumed) - remaining (stream_at 1 w_resumed) = 400 /\
  value_of (withdrawableAmount 1 (at_ bob (T0 + 41)) w_resumed)
    = Err (Panic ARITHMETIC) /\
  value_of (withdrawableAmount 1 (at_ bob (T0 + 79)) w_resumed)
    = Err (Panic ARITHMETIC) /\
  value_of (getStreamTimeInfo 1 (at_ bob (T0 + 79)) w_resumed)
    = Err (Panic ARITHMETIC) /\
  value_of (withdrawableAmount 1 (at_ bob (T0 + 80)) w_resumed) = Ok 0.
Proof.
  split; [apply w_resumed_reachable|].
  split_and!; vm_compute; reflexivity.
Qed.

(** *** Instances of the general theorems *)

Lemma request_ok_open :
  creation_request_ok alice bob 1000 tok T0 (T0 + 100) (at_ alice T0) (deployed bank0).
Proof.
  unfold creation_request_ok.
  split_and!; first [done | eexists; vm_compute; reflexivity].
Qed.

Lemma createStream_succeeds_iff_witness :
  exists i w', _createStream alice bob 1000 tok T0 (T0 + 100) (at_ alice T0)
                 (deployed bank0) = Ok (i, w').
Proof.
  apply (createStream_succeeds_iff alice bob 1000 tok T0 (T0 + 100) (at_ alice T0)
           (deployed bank0)); [reflexivity|].
  apply request_ok_open.
Defined.

Lemma withdrawFromStream_cases_witness :
  exists w',
    _withdrawFromStream 1 bob 0 (at_ bob (T0 + 40)) w_open = Ok (tt, w') /\
    remaining (stream_at 1 w') + 400 = remaining (stream_at 1 w_open) /\
    trace w' = Push 1 tok bob 400 :: trace w_open.
Proof.
  destruct (withdrawFromStream_cases 1 0 (at_ bob (T0 + 40)) w_open 400)
    as (_ & _ & Hall & _); [reflexivity | vm_compute; reflexivity |].
  eapply Hall; [reflexivity | reflexivity | vm_compute; reflexivity].
Defined.

Lemma withdrawal_frame_witness :
  ratePerSecond (stream_at 1 (run (at_ bob (T0 + 40)) (WithdrawFromStream 1 150) w_open))
    = ratePerSecond (stream_at 1 w_open).
Proof.
  eapply (withdrawal_frame (WithdrawFromStream 1 150) (at_ bob (T0 + 40)) w_open);
    [reflexivity | vm_compute; reflexivity].
Defined.

Lemma request_ok_behalf :
  creation_request_ok alice bob 1000 tok T0 (T0 + 100) (at_ carol T0) (deployed bank0).
Proof.
  unfold creation_request_ok.
  split_and!; first [done | eexists; vm_compute; reflexivity].
Qed.

Lemma createStreamOnBehalf_follows_grant_witness :
  createStreamOnBehalf alice bob 1000 tok T0 (T0 + 100) (at_ carol T0) (deployed bank0)
    = Err Unauthorized /\
  (exists i w2, createStreamOnBehalf alice bob 1000 tok T0 (T0 + 100) (at_ carol T0)
                  w_granted = Ok (i, w2)) /\
  createStreamOnBehalf alice bob 1000 tok T0 (T0 + 100) (at_ carol T0) w_revoked
    = Err Unauthorized.
Proof.
  destruct (createStreamOnBehalf_follows_grant alice carol bob 1000 tok T0 (T0 + 100)
              (at_ carol T0) (deployed bank0) eq_refl) as (Hnone & Hgrant & Hrevoke).
  split_and!.
  - apply Hnone. reflexivity.
  - apply (Hgrant (at_ alice T0) w_granted);
      [reflexivity | vm_compute; reflexivity | reflexivity | apply request_ok_behalf].
  - apply (Hrevoke (at_ alice (T0 + 1)) w_granted w_revoked);
      [reflexivity | vm_compute; reflexivity].
Defined.

Lemma deposit_conserved_witness :
  paid 1 alice (trace w_swept) + paid 1 bob (trace w_swept)
    + remaining (stream_at 1 w_swept) = deposit (stream_at 1 w_swept).
Proof. apply (deposit_conserved pay w_swept 1). apply w_swept_reachable. Defined.

Lemma unassigned_id_reads_zero_witness :
  withdrawableAmount 7 (at_ bob (T0 + 40)) w_resumed = Ok (0, w_resumed).
Proof.
  apply (unassigned_id_reads_zero pay w_resumed 7 (at_ bob (T0 + 40)));
    [apply w_resumed_reachable | reflexivity].
Defined.

(** *** Instances of the further properties *)

Lemma w_open_reachable : reachable pay w_open.
Proof. repeat (apply reachable_run; [|reflexivity]). apply reach_deployed. Qed.

Lemma w_granted_reachable : reachable pay w_granted.
Proof. repeat (apply reachable_run; [|reflexivity]). apply reach_deployed. Qed.

Lemma stream_1_exists : is_Some (streams w_open !! 1).
Proof. eexists. vm_compute. reflexivity. Qed.

Lemma grants_come_from_delegator_witness :
  carol <> 0 /\
  In (DelegateAuthorized alice carol createStreamOnBehalf_selector) (events w_granted).
Proof.
  apply (grants_come_from_delegator pay w_granted alice carol
           createStreamOnBehalf_selector);
    [apply w_granted_reachable | reflexivity].
Defined.

Lemma returned_call_was_permitted_witness :
  permitted (PauseStream 1) (at_ bob (T0 + 40)) w_open.
Proof.
  apply (returned_call_was_permitted (PauseStream 1) (at_ bob (T0 + 40)) w_open
           w_paused).
  vm_compute. reflexivity.
Defined.

Lemma inactive_stream_accepts_only_resume_witness :
  cancelStream 1 (at_ alice (T0 + 50)) w_paused = Err NotActive.
Proof.
  apply (inactive_stream_accepts_only_resume 1 (at_ alice (T0 + 50)) w_paused).
  reflexivity.
Defined.

Lemma ids_are_consecutive_witness :
  1 <= _nextStreamId w_swept /\
  (is_Some (streams w_swept !! 0) <-> 1 <= 0 /\ 0 < _nextStreamId w_swept).
Proof.
  destruct (ids_are_consecutive pay w_swept w_swept_reachable) as [Hone Hids].
  exact (conj Hone (Hids 0)).
Defined.

Lemma stream_identity_is_fixed_witness :
  sender (stream_at 1 w_paused) = sender (stream_at 1 w_open) /\
  recipient (stream_at 1 w_paused) = recipient (stream_at 1 w_open) /\
  tokenAddress (stream_at 1 w_paused) = tokenAddress (stream_at 1 w_open) /\
  deposit (stream_at 1 w_paused) = deposit (stream_at 1 w_open) /\
  ratePerSecond (stream_at 1 w_paused) = ratePerSecond (stream_at 1 w_open).
Proof.
  apply (stream_identity_is_fixed pay (PauseStream 1) (at_ bob (T0 + 40)) w_open
           w_paused 1);
    [apply w_open_reachable | apply stream_1_exists | vm_compute; reflexivity].
Defined.

Lemma remaining_only_decreases_witness :
  remaining (stream_at 1 w_paused) <= remaining (stream_at 1 w_open) /\
  remaining (stream_at 1 w_open) <= deposit (stream_at 1 w_open).
Proof.
  apply (remaining_only_decreases pay (PauseStream 1) (at_ bob (T0 + 40)) w_open
           w_paused 1);
    [apply w_open_reachable | apply stream_1_exists | vm_compute; reflexivity].
Defined.

Lemma withdrawable_grows_with_time_witness :
  400 <= 700 /\ (stopTime (stream_at 1 w_open) <= T0 + 40 -> 400 = 700).
Proof.
  apply (withdrawable_grows_with_time 1 (at_ bob (T0 + 40)) (at_ bob (T0 + 70)) w_open);
    [vm_compute; discriminate | vm_compute; reflexivity | vm_compute; reflexivity].
Defined.

Lemma withdrawable_within_remaining_witness :
  w_open = w_open /\ 400 <= remaining (stream_at 1 w_open) /\
  (isActive (stream_at 1 w_open) = false \/ T0 + 40 < startTime (stream_at 1 w_open) ->
   400 = 0).
Proof.
  apply (withdrawable_within_remaining 1 (at_ bob (T0 + 40)) w_open 400 w_open).
  vm_compute. reflexivity.
Defined.

Lemma untouched_stream_accrual_witness :
  withdrawableAmount 1 (at_ bob (T0 + 500)) w_dust
    = Ok (1003 - 1003 mod (T0 + 100 - T0), w_dust).
Proof.
  apply (untouched_stream_accrual alice bob 1003 tok T0 (T0 + 100) (at_ alice T0)
           (deployed bank0) 1 w_dust (at_ bob (T0 + 500)));
    [vm_compute; discriminate | vm_compute; reflexivity | vm_compute; discriminate].
Defined.

Lemma second_withdrawal_reverts_witness :
  withdrawFromStream 1 5 (at_ bob (T0 + 40)) w_first
    = Err (if isActive (stream_at 1 w_first) then NothingToWithdraw else NotActive).
Proof.
  apply (second_withdrawal_reverts 1 5 (at_ bob (T0 + 40)) w_open w_first).
  vm_compute. reflexivity.
Defined.

Lemma pause_then_resume_witness :
  isActive (stream_at 1 w_resumed) = true /\
  startTime (stream_at 1 w_resumed) = T0 + 40 /\
  stopTime (stream_at 1 w_resumed) - startTime (stream_at 1 w_resumed)
    = stopTime (stream_at 1 w_open) - (T0 + 40).
Proof.
  destruct (pause_then_resume 1 (at_ bob (T0 + 40)) (at_ alice (T0 + 40))
              w_open w_paused w_resumed) as (H1 & H2 & H3 & _);
    [vm_compute; reflexivity | vm_compute; reflexivity |].
  exact (conj H1 (conj H2 H3)).
Defined.

Lemma paused_stream_time_info_witness :
  getStreamTimeInfo 1 (at_ carol (T0 + 90)) w_paused
    = Ok ((startTime (stream_at 1 w_open),
           stopTime (stream_at 1 w_open) - (T0 + 40),
           ratePerSecond (stream_at 1 w_open), 0), w_paused).
Proof.
  apply (paused_stream_time_info 1 (at_ bob (T0 + 40)) w_open w_paused
           (at_ carol (T0 + 90))).
  vm_compute. reflexivity.
Defined.

Lemma withdrawal_ends_stream_at_stop_witness :
  isActive (stream_at 1 w_ended)
    = negb ((stopTime (stream_at 1 w_dust) <=? T0 + 100)
            || (remaining (stream_at 1 w_ended) =? 0)).
Proof.
  apply (withdrawal_ends_stream_at_stop (WithdrawFromStream 1 0) (at_ bob (T0 + 100))
           w_dust w_ended 1);
    [reflexivity | reflexivity | vm_compute; reflexivity].
Defined.

Lemma createStreamOnBehalf_as_sender_witness :
  createStreamOnBehalf alice bob 1000 tok T0 (T0 + 100) (at_ carol T0) w_granted
    = createStream bob 1000 tok T0 (T0 + 100) (at_ alice T0) w_granted.
Proof.
  apply (createStreamOnBehalf_as_sender alice bob 1000 tok T0 (T0 + 100)
           (at_ carol T0) w_granted).
  reflexivity.
Defined.


Lemma withdrawFromStreamOnBehalf_cases_witness :
  withdrawFromStreamOnBehalf 1 bob 0 (at_ carol (T0 + 40)) w_bob_granted
    = withdrawFromStream 1 0 (at_ bob (T0 + 40)) w_bob_granted.
Proof.
  apply (withdrawFromStreamOnBehalf_cases 1 bob 0 (at_ carol (T0 + 40)) w_bob_granted);
    reflexivity.
Defined.
